(** * A caching proxy: cache keys, cacheability, the LRU+TTL store and the
      cache-aside protocol

    Shallow embedding of [main.py] and [cache_backends.py].

    Conventions of the embedding.
    - A Python [str] is a [string]: a sequence of code points below 256.
    - A Python [dict] whose iteration order is observable (the [OrderedDict] of
      the memory backend, the JSON objects handed to [json.dumps]) is an
      association list in iteration order; the response headers, which are only
      looked up, are a [gmap].
    - A reading of [time.time()] and an expiry instant are rationals; every
      operation that reads the clock takes the reading as an argument.
    - The floats of [get_stats] are the rationals that binary64 numbers
      denote, and each operation on them rounds to the nearest such number.
    - Objects that are shared by reference ([ProxyResponse] instances) live in
      an explicit heap, and the memory backend stores their addresses. *)

From Stdlib Require Import ZArith QArith Qround Qabs Qpower Lqa Ascii String DecimalString.
From Stdlib Require Import Sorting.Permutation.
From stdpp Require Import base tactics option list strings gmap.

#[local] Set Warnings "-clear-no-such-hyp".

Local Open Scope string_scope.
Local Open Scope list_scope.
Local Open Scope Z_scope.

(** ** Python string primitives *)

Module PyStr.

(** [str.lower] on one code point below 256: the ASCII capitals and the
    Latin-1 capitals (all of U+00C0..U+00DE but the multiplication sign). *)
Definition lower_char (c : ascii) : ascii :=
  let n := nat_of_ascii c in
  if ((65 <=? n)%nat && (n <=? 90)%nat)
     || ((192 <=? n)%nat && (n <=? 222)%nat && negb (n =? 215)%nat)
  then ascii_of_nat (n + 32)
  else c.

Fixpoint lower (s : string) : string :=
  match s with
  | EmptyString => EmptyString
  | String c s' => String (lower_char c) (lower s')
  end.



(** [hay.startswith(needle)] *)
Fixpoint startswith (needle hay : string) : bool :=
  match needle, hay with
  | EmptyString, _ => true
  | String a n', String b h' => if decide (a = b) then startswith n' h' else false
  | String _ _, EmptyString => false
  end.

(** [needle in hay]: substring search. *)
Fixpoint contains (needle hay : string) : bool :=
  startswith needle hay
  || match hay with
     | EmptyString => false
     | String _ h' => contains needle h'
     end.

(** Lexicographic comparison of two strings by code point: Python's [<] and
    [<=] on [str]. *)
Fixpoint ltb (s t : string) : bool :=
  match s, t with
  | _, EmptyString => false
  | EmptyString, String _ _ => true
  | String a s', String b t' =>
      if (nat_of_ascii a <? nat_of_ascii b)%nat then true
      else if (nat_of_ascii b <? nat_of_ascii a)%nat then false
      else ltb s' t'
  end.

Definition leb (s t : string) : bool := negb (ltb t s).

End PyStr.

(** ** [is_cacheable_response] (main.py) *)

(** [headers.get(name, default)] on a [Dict[str, str]]. *)
Definition dict_get (headers : gmap string string) (name default : string) : string :=
  match headers !! name with
  | Some v => v
  | None => default
  end.

Definition is_cacheable_response (status_code : Z) (headers : gmap string string) : bool :=
  if negb (bool_decide (status_code ∈ [200; 301; 302])) then false
  else
    let cache_control := PyStr.lower (dict_get headers "cache-control" "") in
    if PyStr.contains "no-store" cache_control || PyStr.contains "no-cache" cache_control
    then false
    else true.


(** ** JSON values and [json.dumps(..., sort_keys=True)] *)

(** The values [json.dumps] is applied to: [None], [bool], [int], [str], lists
    and dictionaries with string keys (floats are left out).  A dictionary is
    the list of its items in insertion order. *)
#[local] Unset Elimination Schemes.
Inductive json : Type :=
| JNull
| JBool (b : bool)
| JInt (n : Z)
| JStr (s : string)
| JList (l : list json)
| JDict (d : list (string * json)).
#[local] Set Elimination Schemes.

Module Json.

Definition dquote : string := String (ascii_of_nat 34) EmptyString.

Definition hex_digit (n : nat) : ascii :=
  nth n (list_ascii_of_string "0123456789abcdef") "0"%char.

(** One code point under [ensure_ascii=True]: the short escapes, the
    printable ASCII range as it is, [\u00xx] for everything else. *)
Definition escape_char (c : ascii) : string :=
  let n := nat_of_ascii c in
  if (n =? 34)%nat then ("\" ++ dquote)%string
  else if (n =? 92)%nat then "\\"
  else if (n =? 10)%nat then "\n"
  else if (n =? 13)%nat then "\r"
  else if (n =? 9)%nat then "\t"
  else if (n =? 12)%nat then "\f"
  else if (n =? 8)%nat then "\b"
  else if ((32 <=? n)%nat && (n <=? 126)%nat) then String c EmptyString
  else ("\u00" ++ String (hex_digit (n / 16)) (String (hex_digit (n mod 16)) EmptyString))%string.

Fixpoint escape (s : string) : string :=
  match s with
  | EmptyString => EmptyString
  | String c s' => (escape_char c ++ escape s')%string
  end.

(** [encode_basestring_ascii] *)
Definition encode_str (s : string) : string := (dquote ++ escape s ++ dquote)%string.

(** [int.__repr__] *)
Definition encode_int (n : Z) : string := NilZero.string_of_int (Z.to_int n).

(** [sorted(items)] on items with pairwise distinct keys: a stable insertion
    sort on the key. *)
Fixpoint insert_item {A} (x : string * A) (l : list (string * A)) : list (string * A) :=
  match l with
  | [] => [x]
  | y :: l' => if PyStr.leb x.1 y.1 then x :: y :: l' else y :: insert_item x l'
  end.

Definition sort_items {A} (l : list (string * A)) : list (string * A) :=
  foldr insert_item [] l.

Definition on_value {A B} (f : A -> B) (kv : string * A) : string * B :=
  let '(k, v) := kv in (k, f v).

Definition render_item (kv : string * string) : string :=
  (encode_str kv.1 ++ ": " ++ kv.2)%string.

(** [json.dumps(j, sort_keys=True)] with the default separators.  The values
    of a dictionary are rendered before its items are sorted; the sort reads
    the keys only, so this is the encoder's "sort, then render each item"
    ([sort_items_map] below). *)
Fixpoint dumps (j : json) : string :=
  match j with
  | JNull => "null"
  | JBool true => "true"
  | JBool false => "false"
  | JInt n => encode_int n
  | JStr s => encode_str s
  | JList l => ("[" ++ String.concat ", " (map dumps l) ++ "]")%string
  | JDict d =>
      ("{" ++ String.concat ", "
                (map render_item
                     (sort_items (map (on_value dumps) d)))
           ++ "}")%string
  end.

End Json.

(** ** [hashlib.md5(...).hexdigest()] (RFC 1321) *)

Module MD5.

Definition mask32 (x : Z) : Z := Z.land x 0xffffffff.

Definition rotl32 (x : Z) (c : Z) : Z :=
  mask32 (Z.lor (Z.shiftl x c) (Z.shiftr x (32 - c))).

Definition not32 (x : Z) : Z := Z.lxor x 0xffffffff.

Definition K : list Z :=
  [ 0xd76aa478; 0xe8c7b756; 0x242070db; 0xc1bdceee; 0xf57c0faf; 0x4787c62a; 0xa8304613; 0xfd469501;
    0x698098d8; 0x8b44f7af; 0xffff5bb1; 0x895cd7be; 0x6b901122; 0xfd987193; 0xa679438e; 0x49b40821;
    0xf61e2562; 0xc040b340; 0x265e5a51; 0xe9b6c7aa; 0xd62f105d; 0x02441453; 0xd8a1e681; 0xe7d3fbc8;
    0x21e1cde6; 0xc33707d6; 0xf4d50d87; 0x455a14ed; 0xa9e3e905; 0xfcefa3f8; 0x676f02d9; 0x8d2a4c8a;
    0xfffa3942; 0x8771f681; 0x6d9d6122; 0xfde5380c; 0xa4beea44; 0x4bdecfa9; 0xf6bb4b60; 0xbebfbc70;
    0x289b7ec6; 0xeaa127fa; 0xd4ef3085; 0x04881d05; 0xd9d4d039; 0xe6db99e5; 0x1fa27cf8; 0xc4ac5665;
    0xf4292244; 0x432aff97; 0xab9423a7; 0xfc93a039; 0x655b59c3; 0x8f0ccc92; 0xffeff47d; 0x85845dd1;
    0x6fa87e4f; 0xfe2ce6e0; 0xa3014314; 0x4e0811a1; 0xf7537e82; 0xbd3af235; 0x2ad7d2bb; 0xeb86d391 ].

Definition S : list Z :=
  [ 7; 12; 17; 22; 7; 12; 17; 22; 7; 12; 17; 22; 7; 12; 17; 22;
    5; 9; 14; 20; 5; 9; 14; 20; 5; 9; 14; 20; 5; 9; 14; 20;
    4; 11; 16; 23; 4; 11; 16; 23; 4; 11; 16; 23; 4; 11; 16; 23;
    6; 10; 15; 21; 6; 10; 15; 21; 6; 10; 15; 21; 6; 10; 15; 21 ].

Record regs := Regs { rA : Z; rB : Z; rC : Z; rD : Z }.

Definition init : regs := Regs 0x67452301 0xefcdab89 0x98badcfe 0x10325476.

(** One of the 64 operations on the block [M] (sixteen 32-bit words). *)
Definition step (M : list Z) (r : regs) (i : nat) : regs :=
  let '(Regs a b c d) := r in
  let '(f, g) :=
    if (i <? 16)%nat then (Z.lor (Z.land b c) (Z.land (not32 b) d), i)
    else if (i <? 32)%nat then (Z.lor (Z.land d b) (Z.land (not32 d) c), (5 * i + 1) mod 16)%nat
    else if (i <? 48)%nat then (Z.lxor b (Z.lxor c d), (3 * i + 5) mod 16)%nat
    else (Z.lxor c (Z.lor b (not32 d)), (7 * i) mod 16)%nat in
  let f' := mask32 (f + a + nth i K 0 + nth g M 0) in
  Regs d (mask32 (b + rotl32 f' (nth i S 0))) b c.

(** Little-endian 32-bit words of a byte list. *)
Fixpoint words (bs : list Z) : list Z :=
  match bs with
  | b0 :: b1 :: b2 :: b3 :: bs' =>
      (b0 + Z.shiftl b1 8 + Z.shiftl b2 16 + Z.shiftl b3 24) :: words bs'
  | _ => []
  end.

Definition block (r : regs) (M : list Z) : regs :=
  let r' := foldl (step M) r (seq 0 64) in
  Regs (mask32 (rA r + rA r')) (mask32 (rB r + rB r'))
       (mask32 (rC r + rC r')) (mask32 (rD r + rD r')).

Fixpoint blocks (fuel : nat) (r : regs) (ws : list Z) : regs :=
  match fuel, ws with
  | O, _ | _, [] => r
  | Datatypes.S fuel', _ => blocks fuel' (block r (take 16 ws)) (drop 16 ws)
  end.

Definition le_bytes (n : nat) (x : Z) : list Z :=
  map (fun i => Z.land (Z.shiftr x (8 * Z.of_nat i)) 0xff) (seq 0 n).

(** The message, the byte 0x80, zeros up to 56 modulo 64, and the bit length
    on eight bytes. *)
Definition pad (msg : list Z) : list Z :=
  let len := Z.of_nat (length msg) in
  let zeros := Z.to_nat ((55 - len) mod 64) in
  msg ++ [0x80] ++ repeat 0 zeros ++ le_bytes 8 (Z.land (8 * len) 0xffffffffffffffff).

Definition digest (msg : list Z) : list Z :=
  let ws := words (pad msg) in
  let r := blocks (length ws) init ws in
  le_bytes 4 (rA r) ++ le_bytes 4 (rB r) ++ le_bytes 4 (rC r) ++ le_bytes 4 (rD r).

Definition hex_byte (b : Z) : string :=
  String (Json.hex_digit (Z.to_nat (b / 16)))
         (String (Json.hex_digit (Z.to_nat (b mod 16))) EmptyString).

(** [key_string.encode()]: the rendered JSON is ASCII, one byte per
    character. *)
Definition encode (s : string) : list Z :=
  map (fun c => Z.of_nat (nat_of_ascii c)) (list_ascii_of_string s).

Definition hexdigest (s : string) : string :=
  String.concat EmptyString (map hex_byte (digest (encode s))).

End MD5.

(** ** Requests, responses, settings (models.py, config.py) *)

Module ProxyRequest.
Record t := {
  url : string;
  method : string;
  headers : option (gmap string string);
  body : json;                                  (* [None] is [JNull] *)
  params : option (list (string * json))
}.
End ProxyRequest.

Module ProxyResponse.
Record t := {
  status_code : Z;
  content : list Byte.byte;
  headers : gmap string string;
  from_cache : bool;
  cache_key : option string
}.

Definition set_from_cache (b : bool) (r : t) : t :=
  {| status_code := status_code r; content := content r; headers := headers r;
     from_cache := b; cache_key := cache_key r |}.

Definition set_cache_key (k : string) (r : t) : t :=
  {| status_code := status_code r; content := content r; headers := headers r;
     from_cache := from_cache r; cache_key := Some k |}.
End ProxyResponse.

Record Settings := {
  cache_ttl : Z;
  cache_backend : string;
  redis_url : string;
  max_cache_size : Z
}.

(** ** [generate_cache_key] (main.py) *)

(** [request.params or {}]: [None] and the empty dictionary are falsy. *)
Definition params_or_empty (p : option (list (string * json))) : list (string * json) :=
  match p with
  | None | Some [] => []
  | Some d => d
  end.

Definition key_data (request : ProxyRequest.t) : json :=
  JDict [ ("url", JStr (ProxyRequest.url request));
          ("method", JStr (ProxyRequest.method request));
          ("params", JDict (params_or_empty (ProxyRequest.params request)));
          ("body", ProxyRequest.body request) ].

Definition key_string (request : ProxyRequest.t) : string :=
  Json.dumps (key_data request).

Definition generate_cache_key (request : ProxyRequest.t) : string :=
  MD5.hexdigest (key_string request).

(** ** Exceptions and the state-and-exception monad *)

Inductive exn : Type :=
| KeyError            (* [popitem] on an empty [OrderedDict] *)
| StoreUnavailable    (* a failure raised by the Redis client *)
| FetchFailure        (* a failure raised by the HTTP client *)
| ValueError.         (* an unsupported backend name *)

Definition M (St A : Type) : Type := St -> St * (exn + A).

Definition ret {St A} (a : A) : M St A := fun s => (s, inr a).
Definition raise {St A} (e : exn) : M St A := fun s => (s, inl e).
Definition bind {St A B} (c : M St A) (k : A -> M St B) : M St B :=
  fun s => match c s with
           | (s', inr a) => k a s'
           | (s', inl e) => (s', inl e)
           end.
Definition gets {St A} (f : St -> A) : M St A := fun s => (s, inr (f s)).
Definition modify {St} (f : St -> St) : M St unit := fun s => (f s, inr tt).
Definition lift {St A} (r : exn + A) : M St A := fun s => (s, r).

Declare Scope proxy_scope.
Delimit Scope proxy_scope with proxy.
Notation "'do' x <- c ; k" := (bind c (fun x => k))
  (at level 10, x name, c at level 100, k at level 200) : proxy_scope.
Notation "c ;; k" := (bind c (fun _ => k))
  (at level 100, k at level 200, right associativity) : proxy_scope.

(** ** [OrderedDict]: the items in iteration order, oldest first *)

Module OrderedDict.
Section ops.
Context {X : Type}.
Implicit Types (d : list (string * X)) (k : string).

(** [d[k]] *)
Fixpoint lookup k d : option X :=
  match d with
  | [] => None
  | (k', x) :: d' => if decide (k = k') then Some x else lookup k d'
  end.

(** [k in d] *)
Definition mem k d : bool := bool_decide (is_Some (lookup k d)).

(** [del d[k]] *)
Definition delitem k d : list (string * X) :=
  filter (fun kx => kx.1 <> k) d.

(** [d.move_to_end(k)] for a key that is present. *)
Definition move_to_end k d : list (string * X) :=
  match lookup k d with
  | Some x => delitem k d ++ [(k, x)]
  | None => d
  end.

(** [d[k] = x]: a present key keeps its place, a new one goes last. *)
Fixpoint setitem k (x : X) d : list (string * X) :=
  match d with
  | [] => [(k, x)]
  | (k', x') :: d' => if decide (k = k') then (k, x) :: d' else (k', x') :: setitem k x d'
  end.

(** [d.popitem(last=False)]: raises [KeyError] on an empty dictionary. *)
Definition popitem_first d : exn + list (string * X) :=
  match d with
  | [] => inl KeyError
  | _ :: d' => inr d'
  end.

Definition keys d : list string := d.*1.
End ops.
End OrderedDict.

(** [a > b] on clock readings. *)
Definition Qgtb (a b : Q) : bool := negb (Qle_bool a b).

(** ** [MemoryCacheBackend] (cache_backends.py) *)

Module MemoryCacheBackend.
Section backend.
Context {V : Type}.

Record t := {
  _cache : list (string * (V * Q));
  max_size : Z;
  default_ttl : Z
}.

Definition with_cache (c : list (string * (V * Q))) (self : t) : t :=
  {| _cache := c; max_size := max_size self; default_ttl := default_ttl self |}.

(** [__init__] *)
Definition init (max_size default_ttl : Z) : t :=
  {| _cache := []; max_size := max_size; default_ttl := default_ttl |}.

Definition delete (key : string) (self : t) : t :=
  if OrderedDict.mem key (_cache self)
  then with_cache (OrderedDict.delitem key (_cache self)) self
  else self.

(** [get], with [now] the reading of [time.time()]. *)
Definition get (key : string) (now : Q) (self : t) : option V * t :=
  match OrderedDict.lookup key (_cache self) with
  | None => (None, self)
  | Some (data, expiry) =>
      if Qgtb now expiry then (None, delete key self)
      else (Some data, with_cache (OrderedDict.move_to_end key (_cache self)) self)
  end.

(** [set], with [now] the reading of [time.time()]. *)
Definition set (key : string) (value : V) (ttl : option Z) (now : Q) (self : t)
  : exn + t :=
  let ttl := match ttl with None => default_ttl self | Some n => n end in
  let expiry := (now + inject_Z ttl)%Q in
  let c1 := if OrderedDict.mem key (_cache self)
            then OrderedDict.delitem key (_cache self) else _cache self in
  match (if Z.of_nat (length c1) >=? max_size self
         then OrderedDict.popitem_first c1 else inr c1) with
  | inl e => inl e
  | inr c2 => inr (with_cache (OrderedDict.setitem key (value, expiry) c2) self)
  end.

Definition exists_ (key : string) (now : Q) (self : t) : bool * t :=
  match OrderedDict.lookup key (_cache self) with
  | None => (false, self)
  | Some (_, expiry) =>
      if Qgtb now expiry then (false, delete key self) else (true, self)
  end.
End backend.
Arguments t : clear implicits.
End MemoryCacheBackend.

(** ** The heap of [ProxyResponse] objects *)

Abbreviation loc := nat.

#[global] Instance ProxyResponse_inhabited : Inhabited ProxyResponse.t :=
  populate {| ProxyResponse.status_code := 0; ProxyResponse.content := [];
              ProxyResponse.headers := ∅; ProxyResponse.from_cache := false;
              ProxyResponse.cache_key := None |}.

Module Heap.
Abbreviation t := (list ProxyResponse.t).

(** A new object: its address is the next free one. *)
Definition alloc (r : ProxyResponse.t) (h : t) : loc * t := (length h, h ++ [r]).

(** Attribute read through a reference. *)
Definition deref (l : loc) (h : t) : ProxyResponse.t := h !!! l.

(** Attribute assignment through a reference: every holder of [l] sees it. *)
Definition setattr (l : loc) (f : ProxyResponse.t -> ProxyResponse.t) (h : t) : t :=
  alter f l h.
End Heap.

(** ** The Redis server and [RedisCacheBackend] (cache_backends.py) *)

(** The server is an external collaborator: a table of pickled values with
    their expiry instants, and the outcome of each coming command ([true]: the
    transport fails; an exhausted list: no more failures). *)
Module Redis.
Record server := {
  db : gmap string (ProxyResponse.t * Q);
  faults : list bool
}.

Definition command {A} (run : server -> server * A) (sv : server) : server * (exn + A) :=
  match faults sv with
  | true :: fs => ({| db := db sv; faults := fs |}, inl StoreUnavailable)
  | false :: fs => let '(sv', a) := run {| db := db sv; faults := fs |} in (sv', inr a)
  | [] => let '(sv', a) := run sv in (sv', inr a)
  end.

Definition live (now : Q) (e : ProxyResponse.t * Q) : bool := Qgtb e.2 now.

Definition GET (key : string) (now : Q) : server -> server * (exn + option ProxyResponse.t) :=
  command (fun sv =>
    (sv, match db sv !! key with
         | Some e => if live now e then Some e.1 else None
         | None => None
         end)).

Definition SETEX (key : string) (ttl : Z) (data : ProxyResponse.t) (now : Q)
  : server -> server * (exn + unit) :=
  command (fun sv =>
    ({| db := <[key := (data, (now + inject_Z ttl)%Q)]> (db sv); faults := faults sv |}, tt)).

Definition DEL (key : string) : server -> server * (exn + unit) :=
  command (fun sv => ({| db := delete key (db sv); faults := faults sv |}, tt)).

Definition EXISTS (key : string) (now : Q) : server -> server * (exn + Z) :=
  command (fun sv =>
    (sv, match db sv !! key with
         | Some e => if live now e then 1 else 0
         | None => 0
         end)).
End Redis.

Module RedisCacheBackend.
Record t := {
  redis_url : string;
  _redis : bool          (* whether the client object has been created *)
}.

Definition init (redis_url : string) : t := {| redis_url := redis_url; _redis := false |}.

Definition _get_connection (self : t) : t :=
  {| redis_url := redis_url self; _redis := true |}.

(** [pickle.loads] builds a new object: the caller gets a copy. *)
Definition get (key : string) (now : Q) (self : t) (sv : Redis.server)
  : t * Redis.server * (exn + option ProxyResponse.t) :=
  let self := _get_connection self in
  let '(sv', data) := Redis.GET key now sv in
  (self, sv', data).

(** [pickle.dumps] snapshots the object at the time of the call. *)
Definition set (key : string) (value : ProxyResponse.t) (ttl : Z) (now : Q)
    (self : t) (sv : Redis.server) : t * Redis.server * (exn + unit) :=
  let self := _get_connection self in
  let '(sv', r) := Redis.SETEX key ttl value now sv in
  (self, sv', r).

Definition delete (key : string) (self : t) (sv : Redis.server)
  : t * Redis.server * (exn + unit) :=
  let self := _get_connection self in
  let '(sv', r) := Redis.DEL key sv in
  (self, sv', r).

Definition exists_ (key : string) (now : Q) (self : t) (sv : Redis.server)
  : t * Redis.server * (exn + bool) :=
  let self := _get_connection self in
  let '(sv', r) := Redis.EXISTS key now sv in
  (self, sv', match r with inl e => inl e | inr n => inr (n =? 1) end).
End RedisCacheBackend.

(** ** The process state: heap, cache manager, Redis server, counters *)

Inductive CacheManager : Type :=
| MemoryBackend (m : MemoryCacheBackend.t loc)
| RedisBackend (r : RedisCacheBackend.t).

Record CacheStats := {
  hits : Z;
  misses : Z;
  total_requests : Z
}.

Record World := {
  heap : Heap.t;
  cache_manager : CacheManager;
  redis : Redis.server;
  cache_stats : CacheStats
}.

Definition with_heap (f : Heap.t -> Heap.t) (w : World) : World :=
  {| heap := f (heap w); cache_manager := cache_manager w; redis := redis w;
     cache_stats := cache_stats w |}.
Definition with_manager (c : CacheManager) (w : World) : World :=
  {| heap := heap w; cache_manager := c; redis := redis w; cache_stats := cache_stats w |}.
Definition with_redis (sv : Redis.server) (w : World) : World :=
  {| heap := heap w; cache_manager := cache_manager w; redis := sv;
     cache_stats := cache_stats w |}.
Definition with_stats (f : CacheStats -> CacheStats) (w : World) : World :=
  {| heap := heap w; cache_manager := cache_manager w; redis := redis w;
     cache_stats := f (cache_stats w) |}.

Definition incr_total (s : CacheStats) : CacheStats :=
  {| hits := hits s; misses := misses s; total_requests := total_requests s + 1 |}.
Definition incr_hits (s : CacheStats) : CacheStats :=
  {| hits := hits s + 1; misses := misses s; total_requests := total_requests s |}.
Definition incr_misses (s : CacheStats) : CacheStats :=
  {| hits := hits s; misses := misses s + 1; total_requests := total_requests s |}.

Definition new_object (r : ProxyResponse.t) : M World loc :=
  fun w => let '(l, h) := Heap.alloc r (heap w) in (with_heap (fun _ => h) w, inr l).

(** ** [CacheManager] (cache_backends.py) and its construction (main.py) *)

Module Manager.
Definition init (settings : Settings) : exn + CacheManager :=
  if decide (cache_backend settings = "memory")
  then inr (MemoryBackend (MemoryCacheBackend.init (max_cache_size settings) (cache_ttl settings)))
  else if decide (cache_backend settings = "redis")
  then inr (RedisBackend (RedisCacheBackend.init (redis_url settings)))
  else inl ValueError.

Definition get (key : string) (now : Q) : M World (option loc) :=
  fun w =>
    match cache_manager w with
    | MemoryBackend m =>
        let '(r, m') := MemoryCacheBackend.get key now m in
        (with_manager (MemoryBackend m') w, inr r)
    | RedisBackend b =>
        let '(b', sv', r) := RedisCacheBackend.get key now b (redis w) in
        let w' := with_redis sv' (with_manager (RedisBackend b') w) in
        match r with
        | inl e => (w', inl e)
        | inr None => (w', inr None)
        | inr (Some v) => bind (new_object v) (fun l => ret (Some l)) w'
        end
    end.

Definition set (key : string) (value : loc) (ttl : Z) (now : Q) : M World unit :=
  fun w =>
    match cache_manager w with
    | MemoryBackend m =>
        match MemoryCacheBackend.set key value (Some ttl) now m with
        | inl e => (w, inl e)
        | inr m' => (with_manager (MemoryBackend m') w, inr tt)
        end
    | RedisBackend b =>
        let '(b', sv', r) :=
          RedisCacheBackend.set key (Heap.deref value (heap w)) ttl now b (redis w) in
        (with_redis sv' (with_manager (RedisBackend b') w), r)
    end.

Definition delete (key : string) : M World unit :=
  fun w =>
    match cache_manager w with
    | MemoryBackend m => (with_manager (MemoryBackend (MemoryCacheBackend.delete key m)) w, inr tt)
    | RedisBackend b =>
        let '(b', sv', r) := RedisCacheBackend.delete key b (redis w) in
        (with_redis sv' (with_manager (RedisBackend b') w), r)
    end.

Definition exists_ (key : string) (now : Q) : M World bool :=
  fun w =>
    match cache_manager w with
    | MemoryBackend m =>
        let '(r, m') := MemoryCacheBackend.exists_ key now m in
        (with_manager (MemoryBackend m') w, inr r)
    | RedisBackend b =>
        let '(b', sv', r) := RedisCacheBackend.exists_ key now b (redis w) in
        (with_redis sv' (with_manager (RedisBackend b') w), r)
    end.
End Manager.

(** ** [process_proxy_request] (main.py) *)

(** What the outside world contributes to one request: the clock reading at
    the cache lookup, the outcome of the HTTP exchange with the origin (status,
    content, headers), and the clock reading at the cache write. *)
Record Env := {
  now_get : Q;
  origin : exn + (Z * list Byte.byte * gmap string string);
  now_set : Q
}.

(** [make_http_request]: the response object is built with [from_cache=False]
    and no [cache_key]. *)
Definition make_http_request (env : Env) : M World loc :=
  match origin env with
  | inl e => raise e
  | inr (status, content, headers) =>
      new_object {| ProxyResponse.status_code := status; ProxyResponse.content := content;
                    ProxyResponse.headers := headers; ProxyResponse.from_cache := false;
                    ProxyResponse.cache_key := None |}
  end.

(** [ttl or default]: [None] and [0] are falsy. *)
Definition ttl_or (ttl : option Z) (default : Z) : Z :=
  match ttl with
  | None | Some 0 => default
  | Some n => n
  end.

Definition process_proxy_request (settings : Settings) (request : ProxyRequest.t)
    (ttl : option Z) (env : Env) : M World loc :=
  (modify (with_stats incr_total) ;;
   let cache_key := generate_cache_key request in
   do cached_response <- Manager.get cache_key (now_get env);
   match cached_response with
   | Some cached =>
       modify (with_stats incr_hits) ;;
       modify (with_heap (Heap.setattr cached (ProxyResponse.set_from_cache true))) ;;
       modify (with_heap (Heap.setattr cached (ProxyResponse.set_cache_key cache_key))) ;;
       ret cached
   | None =>
       modify (with_stats incr_misses) ;;
       do response <- make_http_request env;
       modify (with_heap (Heap.setattr response (ProxyResponse.set_cache_key cache_key))) ;;
       do r <- gets (fun w => Heap.deref response (heap w));
       (if is_cacheable_response (ProxyResponse.status_code r) (ProxyResponse.headers r)
        then
          let cache_ttl := ttl_or ttl (cache_ttl settings) in
          Manager.set cache_key response cache_ttl (now_set env)
        else ret tt) ;;
       ret response
   end)%proxy.

(** ** Python floats *)

(** A finite Python float is an IEEE 754 binary64 number, read here as the
    rational it denotes.  An operation on floats gives the exact result
    rounded to the nearest such number, ties going to the even significand.
    Overflow is left out: the numbers rounded below are at most 100. *)
Module PyFloat.
(** Nearest integer, ties to even. *)
Definition round_half_even (x : Q) : Z :=
  let f := Qfloor x in
  match (x - inject_Z f ?= 1 # 2)%Q with
  | Lt => f
  | Gt => f + 1
  | Eq => if Z.even f then f else f + 1
  end.

(** The binary exponent of a positive rational: the [k] with
    [2^k <= q < 2^(k+1)]. *)
Definition ilog2 (q : Q) : Z :=
  let k := Z.log2 (Qnum q) - Z.log2 (Zpos (Qden q)) in
  if Qle_bool (2 ^ k) q then k else k - 1.

(** The nearest binary64 number: 53 significant bits, the unit in the last
    place no smaller than [2^-1074] (the subnormal numbers). *)
Definition round (q : Q) : Q :=
  if Qeq_bool q 0 then 0%Q
  else
    let e := Z.max (ilog2 (Qabs q) - 52) (-1074) in
    (inject_Z (round_half_even (q / 2 ^ e)) * 2 ^ e)%Q.

(** [a / b] on two [int]s: the quotient, correctly rounded. *)
Definition truediv (a b : Z) : Q := round (inject_Z a / inject_Z b).

(** [x * y] on two floats. *)
Definition mul (x y : Q) : Q := round (x * y).

(** [round(x, 2)] on a float: the decimal with two places that is nearest to
    the exact value of [x], ties to even, and then the float nearest to that
    decimal.  (The shortest text that reads back as this float, which is what
    the JSON answer shows, is that decimal.) *)
Definition round2 (x : Q) : Q := round (inject_Z (round_half_even (x * 100)) / 100).
End PyFloat.

(** ** [get_stats] (main.py) *)

Module Stats.
Record t := {
  s_hits : Z;
  s_misses : Z;
  s_total_requests : Z;
  hit_rate : Q;
  s_cache_backend : string
}.

(** [hits / total * 100] is a float division followed by a float
    multiplication; with no request counted the rate is the [int] 0. *)
Definition get_stats (settings : Settings) (cache_stats : CacheStats) : t :=
  let total := total_requests cache_stats in
  let hits_ := hits cache_stats in
  let hit_rate := if total >? 0
                  then PyFloat.mul (PyFloat.truediv hits_ total) 100
                  else 0%Q in
  {| s_hits := hits cache_stats; s_misses := misses cache_stats;
     s_total_requests := total_requests cache_stats;
     hit_rate := PyFloat.round2 hit_rate;
     s_cache_backend := cache_backend settings |}.
End Stats.

(** ** Notions used to state the properties *)

(** [needle] occurs in [hay]. *)
Definition substring (needle hay : string) : Prop :=
  exists pre post : string, hay = (pre ++ needle ++ post)%string.




(** Dictionaries with pairwise distinct keys, at every depth. *)
Inductive json_wf : json -> Prop :=
| wf_null : json_wf JNull
| wf_bool b : json_wf (JBool b)
| wf_int n : json_wf (JInt n)
| wf_str s : json_wf (JStr s)
| wf_list l : list_wf l -> json_wf (JList l)
| wf_dict d : NoDup d.*1 -> items_wf d -> json_wf (JDict d)
with list_wf : list json -> Prop :=
| wf_nil : list_wf []
| wf_cons j l : json_wf j -> list_wf l -> list_wf (j :: l)
with items_wf : list (string * json) -> Prop :=
| wf_inil : items_wf []
| wf_icons k j d : json_wf j -> items_wf d -> items_wf ((k, j) :: d).

(** Two values that agree as Python values: the same scalars, lists that agree
    element by element, dictionaries that hold agreeing values under the same
    keys, in whatever insertion order. *)
Inductive json_agree : json -> json -> Prop :=
| ag_null : json_agree JNull JNull
| ag_bool b : json_agree (JBool b) (JBool b)
| ag_int n : json_agree (JInt n) (JInt n)
| ag_str s : json_agree (JStr s) (JStr s)
| ag_list l1 l2 : list_agree l1 l2 -> json_agree (JList l1) (JList l2)
| ag_dict d1 d2 d2' :
    items_agree d1 d2' -> Permutation d2' d2 -> json_agree (JDict d1) (JDict d2)
with list_agree : list json -> list json -> Prop :=
| ag_nil : list_agree [] []
| ag_cons j1 j2 l1 l2 :
    json_agree j1 j2 -> list_agree l1 l2 -> list_agree (j1 :: l1) (j2 :: l2)
with items_agree : list (string * json) -> list (string * json) -> Prop :=
| ag_inil : items_agree [] []
| ag_icons k j1 j2 d1 d2 :
    json_agree j1 j2 -> items_agree d1 d2 -> items_agree ((k, j1) :: d1) ((k, j2) :: d2).

Scheme json_agree_mind := Minimality for json_agree Sort Prop
  with list_agree_mind := Minimality for list_agree Sort Prop
  with items_agree_mind := Minimality for items_agree Sort Prop.

Combined Scheme json_agree_mutind
  from json_agree_mind, list_agree_mind, items_agree_mind.

(** Two requests that agree on url, method, params and body. *)
Definition params_agree (p q : option (list (string * json))) : Prop :=
  match p, q with
  | None, None => True
  | Some d1, Some d2 => json_agree (JDict d1) (JDict d2)
  | _, _ => False
  end.

Definition params_wf (p : option (list (string * json))) : Prop :=
  match p with
  | None => True
  | Some d => json_wf (JDict d)
  end.

Definition request_agree (r1 r2 : ProxyRequest.t) : Prop :=
  ProxyRequest.url r1 = ProxyRequest.url r2
  /\ ProxyRequest.method r1 = ProxyRequest.method r2
  /\ params_agree (ProxyRequest.params r1) (ProxyRequest.params r2)
  /\ json_agree (ProxyRequest.body r1) (ProxyRequest.body r2).

Definition request_wf (r : ProxyRequest.t) : Prop :=
  params_wf (ProxyRequest.params r) /\ json_wf (ProxyRequest.body r).

Definition with_body (b : json) (r : ProxyRequest.t) : ProxyRequest.t :=
  {| ProxyRequest.url := ProxyRequest.url r; ProxyRequest.method := ProxyRequest.method r;
     ProxyRequest.headers := ProxyRequest.headers r; ProxyRequest.body := b;
     ProxyRequest.params := ProxyRequest.params r |}.

Definition with_params (p : option (list (string * json))) (r : ProxyRequest.t)
  : ProxyRequest.t :=
  {| ProxyRequest.url := ProxyRequest.url r; ProxyRequest.method := ProxyRequest.method r;
     ProxyRequest.headers := ProxyRequest.headers r; ProxyRequest.body := ProxyRequest.body r;
     ProxyRequest.params := p |}.

Definition with_headers (h : option (gmap string string)) (r : ProxyRequest.t)
  : ProxyRequest.t :=
  {| ProxyRequest.url := ProxyRequest.url r; ProxyRequest.method := ProxyRequest.method r;
     ProxyRequest.headers := h; ProxyRequest.body := ProxyRequest.body r;
     ProxyRequest.params := ProxyRequest.params r |}.

(** Sequences of operations on a memory backend. *)
Module Trace.
Section trace.
Context {V : Type}.

Inductive op : Type :=
| OpGet (key : string) (now : Q)
| OpSet (key : string) (value : V) (ttl : option Z) (now : Q)
| OpDelete (key : string)
| OpExists (key : string) (now : Q).

Definition step (o : op) (s : MemoryCacheBackend.t V) : exn + MemoryCacheBackend.t V :=
  match o with
  | OpGet k now => inr (MemoryCacheBackend.get k now s).2
  | OpSet k v ttl now => MemoryCacheBackend.set k v ttl now s
  | OpDelete k => inr (MemoryCacheBackend.delete k s)
  | OpExists k now => inr (MemoryCacheBackend.exists_ k now s).2
  end.

Fixpoint run (ops : list op) (s : MemoryCacheBackend.t V) : exn + MemoryCacheBackend.t V :=
  match ops with
  | [] => inr s
  | o :: ops' =>
      match step o s with
      | inl e => inl e
      | inr s' => run ops' s'
      end
  end.
End trace.
Arguments op : clear implicits.
End Trace.

(** The size invariant of a memory backend. *)
Definition within_bound {V} (s : MemoryCacheBackend.t V) : Prop :=
  Z.of_nat (length (MemoryCacheBackend._cache s)) <= MemoryCacheBackend.max_size s.

(** The response object a memory backend holds under a key, read through the
    heap. *)
Definition stored_response (key : string) (w : World) : option ProxyResponse.t :=
  match cache_manager w with
  | MemoryBackend m =>
      match OrderedDict.lookup key (MemoryCacheBackend._cache m) with
      | Some (l, _) => heap w !! l
      | None => None
      end
  | RedisBackend _ => fst <$> (Redis.db (redis w) !! key)
  end.

(** How one request was served, and the counters after a sequence of
    requests, as [process_proxy_request] updates them. *)
Inductive served : Type := Hit | Miss.

#[global] Instance served_eq_dec : EqDecision served.
Proof. solve_decision. Defined.

Definition count_request (s : CacheStats) (o : served) : CacheStats :=
  match o with
  | Hit => incr_hits (incr_total s)
  | Miss => incr_misses (incr_total s)
  end.

Definition no_requests : CacheStats := {| hits := 0; misses := 0; total_requests := 0 |}.

Definition count_served (o : served) (l : list served) : Z :=
  Z.of_nat (length (filter (fun x => x = o) l)).

(** The state of a miss after a successful fetch: the miss is counted, the
    response object is allocated with [from_cache=False], and its [cache_key]
    is set.  The first component is the address of the response. *)
Definition fetched (key : string) (resp : Z * list Byte.byte * gmap string string)
    (w : World) : loc * World :=
  let '(status, content, headers) := resp in
  let response := {| ProxyResponse.status_code := status; ProxyResponse.content := content;
                     ProxyResponse.headers := headers; ProxyResponse.from_cache := false;
                     ProxyResponse.cache_key := Some key |} in
  (length (heap w), with_heap (fun h => h ++ [response]) (with_stats incr_misses w)).

(** The expiry instant a memory backend holds under a key. *)
Definition stored_expiry (key : string) (w : World) : option Q :=
  match cache_manager w with
  | MemoryBackend m => snd <$> OrderedDict.lookup key (MemoryCacheBackend._cache m)
  | RedisBackend _ => snd <$> (Redis.db (redis w) !! key)
  end.

(** ** A process to run examples on *)

Module Example.
Definition memory_settings : Settings :=
  {| cache_ttl := 300; cache_backend := "memory"; redis_url := "redis://localhost:6379";
     max_cache_size := 1000 |}.

Definition redis_settings : Settings :=
  {| cache_ttl := 300; cache_backend := "redis"; redis_url := "redis://localhost:6379";
     max_cache_size := 1000 |}.

(** The process at start-up: no object, no entry, no request counted.  The
    list tells which of the coming Redis commands fail. *)
Definition process (c : CacheManager) (faults : list bool) : World :=
  {| heap := []; cache_manager := c;
     redis := {| Redis.db := ∅; Redis.faults := faults |};
     cache_stats := no_requests |}.

Definition start (settings : Settings) (faults : list bool) : exn + World :=
  match Manager.init settings with
  | inl e => inl e
  | inr c => inr (process c faults)
  end.

Definition redis_process (faults : list bool) : World :=
  process (RedisBackend (RedisCacheBackend.init "redis://localhost:6379")) faults.

Definition memory_process : World :=
  process (MemoryBackend (MemoryCacheBackend.init 1000 300)) [].

Definition request : ProxyRequest.t :=
  {| ProxyRequest.url := "https://example.com/a"; ProxyRequest.method := "GET";
     ProxyRequest.headers := None; ProxyRequest.body := JNull;
     ProxyRequest.params := None |}.

(** The origin answers 200 with an empty body and no header; the cache is
    read at time [t] and written at time [t + 1]. *)
Definition env (t : Z) : Env :=
  {| now_get := inject_Z t; origin := inr (200, [], ∅); now_set := inject_Z (t + 1) |}.

(** Two requests in a row on a process started with [settings]. *)
Definition twice (settings : Settings) (faults : list bool) (ttl : option Z)
  : exn + (World * (exn + loc) * (World * (exn + loc))) :=
  match start settings faults with
  | inl e => inl e
  | inr w0 =>
      let r1 := process_proxy_request settings request ttl (env 10) w0 in
      let r2 := process_proxy_request settings request ttl (env 20) r1.1 in
      inr (r1, r2)
  end.
End Example.

(** ** [make_http_request]: what is handed to the HTTP client (main.py) *)

(** Python truthiness of a JSON value. *)
Definition truthy (j : json) : bool :=
  match j with
  | JNull => false
  | JBool b => b
  | JInt n => negb (n =? 0)
  | JStr s => match s with EmptyString => false | String _ _ => true end
  | JList l => match l with [] => false | _ :: _ => true end
  | JDict d => match d with [] => false | _ :: _ => true end
  end.

(** The body argument of [client.request]: none, [json=...] or [data=...]. *)
Inductive payload : Type :=
| NoPayload
| JsonPayload (j : json)
| DataPayload (j : json).

Module ClientArgs.
Record t := {
  method : string;
  url : string;
  headers : gmap string string;
  params : list (string * json);
  follow_redirects : bool;
  body : payload
}.
End ClientArgs.

(** The [kwargs] dictionary that [make_http_request] builds from the request. *)
Definition request_kwargs (request : ProxyRequest.t) : ClientArgs.t :=
  {| ClientArgs.method := ProxyRequest.method request;
     ClientArgs.url := ProxyRequest.url request;
     ClientArgs.headers := default ∅ (ProxyRequest.headers request);
     ClientArgs.params := params_or_empty (ProxyRequest.params request);
     ClientArgs.follow_redirects := true;
     ClientArgs.body :=
       if truthy (ProxyRequest.body request)
          && bool_decide (ProxyRequest.method request ∈ ["POST"; "PUT"; "PATCH"])
       then match ProxyRequest.body request with
            | JDict _ | JList _ => JsonPayload (ProxyRequest.body request)
            | _ => DataPayload (ProxyRequest.body request)
            end
       else NoPayload |}.

(** ** The [/proxy] endpoint and sequences of calls to it (main.py) *)

Definition proxy_request (settings : Settings) (request : ProxyRequest.t) (ttl : option Z)
    (env : Env) : M World loc :=
  process_proxy_request settings request ttl env.

Record Call := {
  call_request : ProxyRequest.t;
  call_ttl : option Z;
  call_env : Env
}.

(** The calls are served one after the other; a call that raises leaves the
    process in the state it had reached. *)
Fixpoint serve (settings : Settings) (calls : list Call) (w : World)
  : World * list (exn + loc) :=
  match calls with
  | [] => (w, [])
  | c :: calls' =>
      let '(w1, r) := proxy_request settings (call_request c) (call_ttl c) (call_env c) w in
      let '(w2, rs) := serve settings calls' w1 in
      (w2, r :: rs)
  end.

(** ** [direct_proxy_middleware] (main.py) *)

(** [s.split(sep, 1)] for a non-empty separator: the text before and after
    the first occurrence of [sep], or [s] alone when there is none. *)
Fixpoint str_split_once (sep s : string) : list string :=
  if PyStr.startswith sep s
  then [EmptyString; String.substring (String.length sep) (String.length s) s]
  else match s with
       | EmptyString => [s]
       | String c s' =>
           match str_split_once sep s' with
           | [before; after] => [String c before; after]
           | _ => [s]
           end
       end.

Module Http.
(** What the middleware reads of the incoming request: header names arrive
    as the server hands them over, in order. *)
Record Request := {
  path : string;
  query : string;
  method : string;
  headers : list (string * string);
  body : list Byte.byte
}.

(** The call [Response(content=..., status_code=..., headers=...)] whose
    result the middleware returns: its three arguments.  [headers_argument]
    is the dictionary passed as [headers], not the header block of the answer
    on the wire: the framework builds that from it and adds a
    [content-length] of its own. *)
Record Response := {
  content : list Byte.byte;
  status_code : Z;
  headers_argument : gmap string string
}.

(** The middleware hands the request on ([call_next]), returns the result
    of a [Response(...)] call, or raises an [HTTPException] with a status. *)
Inductive outcome : Type :=
| CallNext
| Return (r : Response)
| HTTPException (status : Z).

(** [request.headers.get(name, default)]: the first header under the
    lower-cased name. *)
Definition headers_get (name default : string) (hs : list (string * string)) : string :=
  match List.find (fun kv => bool_decide (kv.1 = PyStr.lower name)) hs with
  | Some kv => kv.2
  | None => default
  end.
End Http.

Definition dropped_request_headers : list string :=
  ["host"; "content-length"; "content-encoding"; "accept-encoding"].

Definition dropped_response_headers : list string :=
  ["content-encoding"; "transfer-encoding"; "content-length"].

(** The headers forwarded to the origin: the loop over the incoming headers,
    then the assignment of [accept-encoding]. *)
Definition forwarded_headers (hs : list (string * string)) : gmap string string :=
  <["accept-encoding" := "identity"]>
    (foldl (fun (acc : gmap string string) kv =>
              if bool_decide (PyStr.lower kv.1 ∈ dropped_request_headers)
              then acc else <[kv.1 := kv.2]> acc)
           ∅ hs).

(** The dictionary [response_headers] built by the loop over the response's
    headers and passed to [Response] as [headers]. *)
Definition returned_headers (h : gmap string string) : gmap string string :=
  filter (fun kv : string * string => PyStr.lower kv.1 ∉ dropped_response_headers) h.

Section middleware.
(** [bytes.decode()] and [json.loads] are taken as given; [None] stands for
    an exception. *)
Context (decode : list Byte.byte -> option string) (loads : string -> option json).

(** The body of the proxy request; [None] when the decoding raises outside
    the inner [try]. *)
Definition read_body (req : Http.Request) : option json :=
  if bool_decide (Http.method req ∈ ["POST"; "PUT"; "PATCH"])
  then match Http.body req with
       | [] => Some JNull
       | _ :: _ =>
           let content_type := Http.headers_get "content-type" "" (Http.headers req) in
           if PyStr.contains "application/json" content_type
           then match decode (Http.body req) ≫= loads with
                | Some j => Some j
                | None => JStr <$> decode (Http.body req)
                end
           else JStr <$> decode (Http.body req)
       end
  else Some JNull.

(** The part of the middleware that runs before [process_proxy_request]: the
    proxy request, or the exception that ends the middleware. *)
Definition build_proxy_request (req : Http.Request) : Http.outcome + ProxyRequest.t :=
  match str_split_once "/http/" (Http.path req) with
  | _ :: target_path :: _ =>
      let full_url := ("https://" ++ target_path)%string in
      let full_url := match Http.query req with
                      | EmptyString => full_url
                      | String _ _ => (full_url ++ "?" ++ Http.query req)%string
                      end in
      match read_body req with
      | Some b =>
          inr {| ProxyRequest.url := full_url;
                 ProxyRequest.method := Http.method req;
                 ProxyRequest.headers := Some (forwarded_headers (Http.headers req));
                 ProxyRequest.body := b;
                 ProxyRequest.params := None |}
      | None => inl (Http.HTTPException 500)
      end
  | _ => inl (Http.HTTPException 400)
  end.

Definition direct_proxy_middleware (settings : Settings) (req : Http.Request) (env : Env)
    (w : World) : World * Http.outcome :=
  if negb (PyStr.startswith "/http/" (Http.path req)) then (w, Http.CallNext)
  else match build_proxy_request req with
       | inl o => (w, o)
       | inr proxy_request_data =>
           match process_proxy_request settings proxy_request_data None env w with
           | (w', inl _) => (w', Http.HTTPException 500)
           | (w', inr response_data) =>
               let r := Heap.deref response_data (heap w') in
               (w', Http.Return
                      {| Http.content := ProxyResponse.content r;
                         Http.status_code := ProxyResponse.status_code r;
                         Http.headers_argument :=
                           returned_headers (ProxyResponse.headers r) |})
           end
       end.
End middleware.

(** ** The cache administration endpoints (main.py) *)

Module Admin.
(** The answer of [get_cache_info]: the entry's description, or the
    [HTTPException] with status 404. *)
Inductive info : Type :=
| Found (key : string) (status_code : Z) (from_cache : bool)
| NotFound.

Definition get_cache_info (cache_key : string) (now : Q) : M World info :=
  (do cached_item <- Manager.get cache_key now;
   match cached_item with
   | None => ret NotFound
   | Some l =>
       do r <- gets (fun w => Heap.deref l (heap w));
       ret (Found cache_key (ProxyResponse.status_code r) (ProxyResponse.from_cache r))
   end)%proxy.

Definition delete_cache_item (cache_key : string) : M World unit :=
  Manager.delete cache_key.

(** [clear_cache] reaches into [cache_manager.backend._cache] when the
    settings name the memory backend; a Redis backend has no such attribute
    ([None]: the attribute error), which cannot arise when the manager was
    built from the same settings. *)
Definition clear_cache (settings : Settings) (w : World) : option World :=
  if decide (cache_backend settings = "memory")
  then match cache_manager w with
       | MemoryBackend m =>
           Some (with_manager (MemoryBackend (MemoryCacheBackend.with_cache [] m)) w)
       | RedisBackend _ => None
       end
  else Some w.
End Admin.

(** The memory store of [w] holds under [key] the object [l] with this
    expiry, and [l] carries this status, content and headers. *)
Definition holds_entry (w : World) (key : string) (l : loc) (expiry : Q)
    (status : Z) (content : list Byte.byte) (headers : gmap string string) : Prop :=
  exists m r,
    cache_manager w = MemoryBackend m
    /\ OrderedDict.lookup key (MemoryCacheBackend._cache m) = Some (l, expiry)
    /\ heap w !! l = Some r
    /\ ProxyResponse.status_code r = status
    /\ ProxyResponse.content r = content
    /\ ProxyResponse.headers r = headers.

(** Every value held by the Redis server has [from_cache] false. *)
Definition redis_entries_unmarked (w : World) : Prop :=
  forall key e, Redis.db (redis w) !! key = Some e -> ProxyResponse.from_cache e.1 = false.


(** ** The route table

    The path operations of [main.py] in the order of their decorators.  A
    request that the middleware passes on ([Http.CallNext]) is handled by the
    first operation whose method and path template both match; a parameter
    such as [{cache_key}] matches one non-empty path segment.  [None] stands
    for the router's own answers when no operation matches. *)
Module Router.
Inductive segment : Type :=
| Lit (s : string)
| Param.

Inductive endpoint : Type :=
| ProxyRequestOp
| GetCacheInfoOp (cache_key : string)
| DeleteCacheItemOp (cache_key : string)
| ClearCacheOp
| GetStatsOp
| HealthCheckOp.

Record operation : Type := Operation {
  op_method : string;
  op_template : list segment;
  op_endpoint : list string -> endpoint
}.

Definition routes : list operation :=
  [ Operation "POST" [Lit EmptyString; Lit "proxy"] (fun _ => ProxyRequestOp);
    Operation "GET" [Lit EmptyString; Lit "cache"; Lit "info"; Param]
      (fun ps => GetCacheInfoOp (hd EmptyString ps));
    Operation "DELETE" [Lit EmptyString; Lit "cache"; Param]
      (fun ps => DeleteCacheItemOp (hd EmptyString ps));
    Operation "DELETE" [Lit EmptyString; Lit "cache"; Lit "clear"] (fun _ => ClearCacheOp);
    Operation "GET" [Lit EmptyString; Lit "stats"] (fun _ => GetStatsOp);
    Operation "GET" [Lit EmptyString; Lit "health"] (fun _ => HealthCheckOp) ].

(** The segments of a path: the text between its slashes. *)
Fixpoint split_path (s : string) : list string :=
  match s with
  | EmptyString => [EmptyString]
  | String c s' =>
      if Ascii.eqb c "/"
      then EmptyString :: split_path s'
      else match split_path s' with
           | seg :: rest => String c seg :: rest
           | [] => [String c EmptyString]
           end
  end.

(** The values of the parameters when the template matches the whole path. *)
Fixpoint match_template (t : list segment) (segs : list string) : option (list string) :=
  match t, segs with
  | [], [] => Some []
  | Lit l :: t', s :: segs' =>
      if decide (l = s) then match_template t' segs' else None
  | Param :: t', s :: segs' =>
      if decide (s = EmptyString) then None
      else match match_template t' segs' with
           | Some ps => Some (s :: ps)
           | None => None
           end
  | _, _ => None
  end.

Fixpoint dispatch (ops : list operation) (method : string) (segs : list string)
  : option endpoint :=
  match ops with
  | [] => None
  | op :: ops' =>
      if decide (method = op_method op)
      then match match_template (op_template op) segs with
           | Some ps => Some (op_endpoint op ps)
           | None => dispatch ops' method segs
           end
      else dispatch ops' method segs
  end.

Definition route (method path : string) : option endpoint :=
  dispatch routes method (split_path path).
End Router.
(** * Properties *)

(** ** Substring search *)

Lemma append_String c (s t : string) : (String c s ++ t)%string = String c (s ++ t)%string.
Proof. reflexivity. Qed.

Lemma append_Empty (t : string) : (EmptyString ++ t)%string = t.
Proof. reflexivity. Qed.

Lemma append_assoc (s t u : string) : ((s ++ t) ++ u)%string = (s ++ t ++ u)%string.
Proof. induction s as [|c s IH]; [done|]. by rewrite !append_String, IH. Qed.

Lemma startswith_spec needle hay :
  PyStr.startswith needle hay = true <-> exists post, hay = (needle ++ post)%string.
Proof.
  revert hay. induction needle as [|a n IH]; intros hay; simpl.
  - split; [intros _; by exists hay | done].
  - destruct hay as [|b h].
    + split; [done | intros [post Hp]; discriminate].
    + destruct (decide (a = b)) as [->|Hne].
      * rewrite IH. split; intros [post Hp]; exists post;
          rewrite ?append_String in *; congruence.
      * split; [done | intros [post Hp]; rewrite append_String in Hp; congruence].
Qed.



(** ** C3: the cacheability rule *)


(** *** Header names as the HTTP client hands them over *)


















(** ** The order on keys and the sorting of dictionary items *)

Lemma nat_of_ascii_inj a b : nat_of_ascii a = nat_of_ascii b -> a = b.
Proof.
  intros H. rewrite <- (ascii_nat_embedding a), <- (ascii_nat_embedding b). by rewrite H.
Qed.

Lemma ltb_irrefl s : PyStr.ltb s s = false.
Proof.
  induction s as [|a s IH]; simpl; [done|].
  by rewrite Nat.ltb_irrefl.
Qed.

Lemma ltb_trans s t u :
  PyStr.ltb s t = true -> PyStr.ltb t u = true -> PyStr.ltb s u = true.
Proof.
  revert t u. induction s as [|a s IH]; intros [|b t] [|c u]; simpl; try done.
  destruct (Nat.ltb_spec (nat_of_ascii a) (nat_of_ascii b)),
           (Nat.ltb_spec (nat_of_ascii b) (nat_of_ascii a)),
           (Nat.ltb_spec (nat_of_ascii b) (nat_of_ascii c)),
           (Nat.ltb_spec (nat_of_ascii c) (nat_of_ascii b)),
           (Nat.ltb_spec (nat_of_ascii a) (nat_of_ascii c)),
           (Nat.ltb_spec (nat_of_ascii c) (nat_of_ascii a));
    try done; try lia.
  apply IH.
Qed.

Lemma ltb_total s t :
  PyStr.ltb s t = false -> PyStr.ltb t s = false -> s = t.
Proof.
  revert t. induction s as [|a s IH]; intros [|b t]; simpl; try done.
  destruct (Nat.ltb_spec (nat_of_ascii a) (nat_of_ascii b)),
           (Nat.ltb_spec (nat_of_ascii b) (nat_of_ascii a)); try done; try lia.
  intros Hs Ht. f_equal; [apply nat_of_ascii_inj; lia | by apply IH].
Qed.

Lemma ltb_asym s t : PyStr.ltb s t = true -> PyStr.ltb t s = false.
Proof.
  intros H. destruct (PyStr.ltb t s) eqn:E; [|done].
  by rewrite <- (ltb_irrefl s), <- (ltb_trans _ _ _ H E).
Qed.

Lemma ltb_le_trans s t u :
  PyStr.ltb s t = true -> PyStr.ltb u t = false -> PyStr.ltb s u = true.
Proof.
  intros Hst Hut. destruct (PyStr.ltb t u) eqn:Htu.
  - by apply ltb_trans with t.
  - by rewrite <- (ltb_total _ _ Htu Hut).
Qed.

Ltac order_absurd :=
  match goal with
  | H1 : PyStr.ltb ?a ?b = true, H2 : PyStr.ltb ?b ?a = true |- _ =>
      by rewrite (ltb_asym _ _ H1) in H2
  | H1 : PyStr.ltb ?a ?b = false, H2 : PyStr.ltb ?b ?a = false, Hne : ?a <> ?b |- _ =>
      by destruct Hne; apply ltb_total
  | H1 : PyStr.ltb ?z ?x = true, H2 : PyStr.ltb ?y ?x = false,
    H3 : PyStr.ltb ?z ?y = false |- _ =>
      by rewrite (ltb_le_trans _ _ _ H1 H2) in H3
  end.

Section sorting.
Context {A : Type}.
Implicit Types (x y : string * A) (l : list (string * A)).

(** Inserting two items with distinct keys: the order of the insertions does
    not matter. *)
Lemma insert_item_comm x y l :
  x.1 <> y.1 ->
  Json.insert_item x (Json.insert_item y l) = Json.insert_item y (Json.insert_item x l).
Proof.
  intros Hne.
  destruct (PyStr.ltb y.1 x.1) eqn:Eyx, (PyStr.ltb x.1 y.1) eqn:Exy; try order_absurd.
  all: induction l as [|z l IH]; simpl; unfold PyStr.leb; rewrite ?Eyx, ?Exy; simpl; [done|].
  all: destruct (PyStr.ltb z.1 x.1) eqn:Ezx, (PyStr.ltb z.1 y.1) eqn:Ezy; try order_absurd.
  all: repeat (simpl; unfold PyStr.leb; rewrite ?Eyx, ?Exy, ?Ezx, ?Ezy).
  all: first [done | by rewrite IH].
Qed.

(** A dictionary's items come out of the sort in one order, whatever the
    insertion order. *)
Lemma sort_items_perm l l' :
  Permutation l l' -> NoDup l.*1 -> Json.sort_items l = Json.sort_items l'.
Proof.
  unfold Json.sort_items.
  induction 1 as [|x l l' Hp IH|x y l|l l' l'' Hp1 IH1 Hp2 IH2]; intros Hnd; simpl.
  - done.
  - rewrite IH; [done|]. by inversion Hnd.
  - apply insert_item_comm. simpl in Hnd.
    inversion Hnd as [|? ? Hin _]; subst. intros Heq. apply Hin. rewrite Heq. left.
  - rewrite IH1 by done. apply IH2. by rewrite <- Hp1.
Qed.

(** Rendering the values commutes with the sort, which reads keys only. *)
Lemma insert_item_map {B} (f : A -> B) x l :
  Json.insert_item (Json.on_value f x) (map (Json.on_value f) l)
  = map (Json.on_value f) (Json.insert_item x l).
Proof.
  induction l as [|y l IH]; [done|].
  cbn [map Json.insert_item].
  replace (Json.on_value f x).1 with x.1 by by destruct x.
  replace (Json.on_value f y).1 with y.1 by by destruct y.
  destruct (PyStr.leb x.1 y.1); [done|]. cbn [map]. by rewrite IH.
Qed.

Lemma sort_items_map {B} (f : A -> B) l :
  Json.sort_items (map (Json.on_value f) l) = map (Json.on_value f) (Json.sort_items l).
Proof.
  unfold Json.sort_items. induction l as [|x l IH]; [done|].
  cbn [map foldr]. by rewrite IH, insert_item_map.
Qed.
End sorting.

(** ** C7, C10: the cache key *)

Lemma items_wf_Forall d : items_wf d <-> Forall (fun kv => json_wf kv.2) d.
Proof.
  split.
  - induction 1; by constructor.
  - induction 1 as [|[k j] d Hj _ IH]; by constructor.
Qed.

Lemma items_wf_perm d d' : Permutation d d' -> items_wf d' -> items_wf d.
Proof. rewrite !items_wf_Forall. by intros ->. Qed.

Lemma on_value_fst {A B} (f : A -> B) (d : list (string * A)) :
  (map (Json.on_value f) d).*1 = d.*1.
Proof. induction d as [|[k v] d IH]; [done|]. cbn. by rewrite <- IH. Qed.

(** Values that agree are rendered to the same text. *)
Lemma dumps_agree :
  (forall j1 j2, json_agree j1 j2 -> json_wf j2 -> Json.dumps j1 = Json.dumps j2)
  /\ (forall l1 l2, list_agree l1 l2 -> list_wf l2 -> map Json.dumps l1 = map Json.dumps l2)
  /\ (forall d1 d2, items_agree d1 d2 -> items_wf d2 ->
        map (Json.on_value Json.dumps) d1 = map (Json.on_value Json.dumps) d2).
Proof.
  apply json_agree_mutind; try done.
  - intros l1 l2 _ IH Hwf. inversion Hwf; subst. cbn [Json.dumps]. by rewrite IH.
  - intros d1 d2 d2' _ IH Hp Hwf. inversion Hwf as [| | | | |? Hnd Hd]; subst.
    cbn [Json.dumps]. rewrite IH by by apply (items_wf_perm _ d2).
    do 4 f_equal. apply sort_items_perm.
    + by apply Permutation_map.
    + rewrite on_value_fst. by rewrite Hp.
  - intros j1 j2 l1 l2 _ IHj _ IHl Hwf. inversion Hwf; subst. cbn [map].
    by rewrite IHj, IHl.
  - intros k j1 j2 d1 d2 _ IHj _ IHd Hwf. inversion Hwf; subst. cbn [map Json.on_value].
    by rewrite IHj, IHd.
Qed.

Lemma params_or_empty_Some d : params_or_empty (Some d) = d.
Proof. by destruct d. Qed.

Lemma key_data_agree r1 r2 :
  request_agree r1 r2 -> request_wf r2 ->
  json_agree (key_data r1) (key_data r2) /\ json_wf (key_data r2).
Proof.
  intros (Hu & Hm & Hp & Hb) [Hwp Hwb]. unfold key_data. rewrite Hu, Hm.
  assert (json_agree (JDict (params_or_empty (ProxyRequest.params r1)))
                     (JDict (params_or_empty (ProxyRequest.params r2)))
          /\ json_wf (JDict (params_or_empty (ProxyRequest.params r2)))) as [Hp' Hwp'].
  { destruct (ProxyRequest.params r1) as [d1|], (ProxyRequest.params r2) as [d2|];
      try done.
    - by rewrite !params_or_empty_Some.
    - split; [by apply ag_dict with [] ; constructor|].
      constructor; constructor. }
  split.
  - eapply ag_dict; [|reflexivity].
    apply ag_icons; [apply ag_str|]. apply ag_icons; [apply ag_str|].
    apply ag_icons; [exact Hp'|]. apply ag_icons; [exact Hb|]. apply ag_inil.
  - apply wf_dict.
    + cbn. repeat (constructor; [set_solver|]). constructor.
    + apply wf_icons; [apply wf_str|]. apply wf_icons; [apply wf_str|].
      apply wf_icons; [exact Hwp'|]. apply wf_icons; [exact Hwb|]. apply wf_inil.
Qed.

(** Agreement holds between a value and itself, so two requests whose four
    fields are equal agree. *)
Lemma json_agree_refl : forall j, json_agree j j.
Proof.
  fix IH 1. intros [|b|n|s|l|d]; try constructor.
  - induction l as [|j l IHl]; constructor; [apply IH | exact IHl].
  - apply ag_dict with d; [|reflexivity].
    induction d as [|[k j] d IHd]; constructor; [apply IH | exact IHd].
Qed.

Lemma request_agree_same_fields r1 r2 :
  ProxyRequest.url r1 = ProxyRequest.url r2 ->
  ProxyRequest.method r1 = ProxyRequest.method r2 ->
  ProxyRequest.params r1 = ProxyRequest.params r2 ->
  ProxyRequest.body r1 = ProxyRequest.body r2 ->
  request_agree r1 r2.
Proof.
  intros Hu Hm Hp Hb. split_and!; [done | done | |].
  - rewrite Hp. destruct (ProxyRequest.params r2); [apply json_agree_refl | done].
  - rewrite Hb. apply json_agree_refl.
Qed.

(** C7: the key is a function of url, method, params and body alone.  Two
    requests that agree on these four fields (dictionaries compared as
    mappings, at every depth, whatever their insertion order) derive the same
    key, whatever their headers; the headers can be replaced at will; and a
    body [{a:1,b:2}] derives the key of the body [{b:2,a:1}]. *)
Theorem C7_key_depends_on_four_fields_only :
  (forall r1 r2,
      request_agree r1 r2 -> request_wf r2 ->
      generate_cache_key r1 = generate_cache_key r2)
  /\ (forall r h, generate_cache_key (with_headers h r) = generate_cache_key r)
  /\ (forall r,
        generate_cache_key (with_body (JDict [("a", JInt 1); ("b", JInt 2)]) r)
        = generate_cache_key (with_body (JDict [("b", JInt 2); ("a", JInt 1)]) r)).
Proof.
  assert (forall r1 r2, request_agree r1 r2 -> request_wf r2 ->
                        generate_cache_key r1 = generate_cache_key r2) as Hmain.
  { intros r1 r2 Ha Hw. destruct (key_data_agree r1 r2 Ha Hw) as [Hag Hwf].
    unfold generate_cache_key, key_string.
    by rewrite (proj1 dumps_agree _ _ Hag Hwf). }
  split_and!; [exact Hmain | done |].
  intros r. unfold generate_cache_key. f_equal.
Qed.

(** C7 at two requests with different headers and differently ordered
    bodies. *)
Lemma C7_key_depends_on_four_fields_only_witness :
  generate_cache_key
    {| ProxyRequest.url := "https://example.com/a"; ProxyRequest.method := "POST";
       ProxyRequest.headers := Some {[ "accept" := "text/html" ]};
       ProxyRequest.body := JDict [("a", JInt 1); ("b", JDict [("y", JNull); ("x", JStr "v")])];
       ProxyRequest.params := Some [("q", JStr "1"); ("p", JBool true)] |}
  = generate_cache_key
    {| ProxyRequest.url := "https://example.com/a"; ProxyRequest.method := "POST";
       ProxyRequest.headers := None;
       ProxyRequest.body := JDict [("b", JDict [("x", JStr "v"); ("y", JNull)]); ("a", JInt 1)];
       ProxyRequest.params := Some [("p", JBool true); ("q", JStr "1")] |}.
Proof.
  apply (proj1 C7_key_depends_on_four_fields_only).
  - split_and!; try done; cbn.
    + apply ag_dict with [("q", JStr "1"); ("p", JBool true)].
      * repeat constructor.
      * apply perm_swap.
    + apply ag_dict with [("a", JInt 1); ("b", JDict [("x", JStr "v"); ("y", JNull)])].
      * constructor; [constructor|]. constructor; [|constructor].
        apply ag_dict with [("y", JNull); ("x", JStr "v")]; [repeat constructor|apply perm_swap].
      * apply perm_swap.
  - split; cbn.
    + constructor; [|repeat constructor]. cbn. repeat (constructor; [set_solver|]). constructor.
    + constructor; [cbn; repeat (constructor; [set_solver|]); constructor|].
      constructor; [|repeat constructor].
      constructor; [|repeat constructor]. cbn. repeat (constructor; [set_solver|]). constructor.
Defined.

(** The text that is hashed starts with the rendering of the body: the keys
    of the four fields are sorted, and [body] comes first. *)
Lemma key_string_layout r :
  exists rest : string,
    key_string r
    = (("{" ++ Json.encode_str "body" ++ ": ") ++ Json.dumps (ProxyRequest.body r) ++ rest)%string.
Proof.
  eexists. unfold key_string, key_data. cbn [Json.dumps map Json.on_value].
  change (Json.sort_items _) with
    [("body", Json.dumps (ProxyRequest.body r));
     ("method", Json.encode_str (ProxyRequest.method r));
     ("params", Json.dumps (JDict (params_or_empty (ProxyRequest.params r))));
     ("url", Json.encode_str (ProxyRequest.url r))].
  cbn [map String.concat Json.render_item fst snd].
  rewrite !append_assoc. reflexivity.
Qed.

Lemma append_cancel_l (p a b : string) : (p ++ a)%string = (p ++ b)%string -> a = b.
Proof.
  induction p as [|c p IH]; [done|]. rewrite !append_String. intros [= H]. by apply IH.
Qed.

(** For every request, the text hashed when the body is absent differs from
    the text hashed when the body is the empty object: they part at the first
    character of the rendered body, [null] against [{}].  At the request
    [GET https://example.com/a] the two digests differ as well. *)
Lemma absent_body_text_differs (r : ProxyRequest.t) :
  key_string (with_body JNull r) <> key_string (with_body (JDict []) r).
Proof.
  destruct (key_string_layout (with_body JNull r)) as [rest1 ->].
  destruct (key_string_layout (with_body (JDict []) r)) as [rest2 ->].
  intros H%append_cancel_l.
  cbn [with_body ProxyRequest.body Json.dumps map Json.sort_items foldr String.concat] in H.
  rewrite !append_String in H. discriminate H.
Qed.

Lemma absent_body_example :
  generate_cache_key (with_body JNull Example.request) = "2644bf59102235fadf38230efc3f35cc"
  /\ generate_cache_key (with_body (JDict []) Example.request)
     = "8db766608912f85b12c8d7ce6c02fc7c".
Proof. split; by vm_compute. Qed.

(** C10: a request without params and the same request with the empty
    mapping as params derive the same key, and the orchestrator treats them
    alike: the same lookups and writes, on the same entry. *)
Theorem C10_absent_params_same_key_as_empty (r : ProxyRequest.t) :
  generate_cache_key (with_params None r) = generate_cache_key (with_params (Some []) r)
  /\ forall settings ttl env w,
       process_proxy_request settings (with_params None r) ttl env w
       = process_proxy_request settings (with_params (Some []) r) ttl env w.
Proof.
  assert (generate_cache_key (with_params None r)
          = generate_cache_key (with_params (Some []) r)) as Hk by reflexivity.
  split; [exact Hk|].
  intros settings ttl env w. unfold process_proxy_request. by rewrite Hk.
Qed.

(** ** The ordered dictionary *)

Section ordered_dict.
Context {X : Type}.
Implicit Types (d : list (string * X)) (k : string) (x : X).

Lemma mem_true k d : OrderedDict.mem k d = true <-> is_Some (OrderedDict.lookup k d).
Proof. unfold OrderedDict.mem. by rewrite bool_decide_eq_true. Qed.

Lemma mem_false k d : OrderedDict.mem k d = false <-> OrderedDict.lookup k d = None.
Proof.
  unfold OrderedDict.mem. rewrite bool_decide_eq_false. symmetry. apply eq_None_not_Some.
Qed.

Lemma delitem_cons k k' x d :
  OrderedDict.delitem k ((k', x) :: d)
  = if decide (k' = k) then OrderedDict.delitem k d else (k', x) :: OrderedDict.delitem k d.
Proof.
  unfold OrderedDict.delitem. rewrite filter_cons. simpl.
  destruct (decide (k' = k)) as [->|Hne]; [by rewrite decide_False by auto|].
  by rewrite decide_True.
Qed.

Lemma length_delitem k d : (length (OrderedDict.delitem k d) <= length d)%nat.
Proof. apply length_filter. Qed.

Lemma length_delitem_present k d :
  is_Some (OrderedDict.lookup k d) ->
  (length (OrderedDict.delitem k d) < length d)%nat.
Proof.
  induction d as [|[k' x'] d IH]; simpl; [by intros [? ?]|].
  rewrite delitem_cons. intros Hs.
  destruct (decide (k = k')) as [->|Hne].
  - rewrite decide_True by done. pose proof (length_delitem k' d). lia.
  - rewrite decide_False by auto. simpl. apply IH in Hs. lia.
Qed.

Lemma lookup_delitem k d : OrderedDict.lookup k (OrderedDict.delitem k d) = None.
Proof.
  induction d as [|[k' x'] d IH]; [done|]. rewrite delitem_cons.
  destruct (decide (k' = k)) as [->|Hne]; [done|]. simpl. by rewrite decide_False by auto.
Qed.

Lemma lookup_delitem_ne k k' d :
  k <> k' -> OrderedDict.lookup k (OrderedDict.delitem k' d) = OrderedDict.lookup k d.
Proof.
  intros Hne. induction d as [|[k'' x''] d IH]; [done|]. rewrite delitem_cons.
  destruct (decide (k'' = k')) as [->|Hne'']; simpl.
  - by rewrite decide_False by done.
  - by rewrite IH.
Qed.

Lemma delitem_absent k d : OrderedDict.lookup k d = None -> OrderedDict.delitem k d = d.
Proof.
  induction d as [|[k' x'] d IH]; [done|]. simpl. rewrite delitem_cons.
  destruct (decide (k = k')) as [->|Hne]; [done|].
  intros H. rewrite decide_False by auto. by rewrite IH.
Qed.

Lemma setitem_absent k x d :
  OrderedDict.lookup k d = None -> OrderedDict.setitem k x d = d ++ [(k, x)].
Proof.
  induction d as [|[k' x'] d IH]; [done|]. simpl.
  destruct (decide (k = k')); [done|]. intros H. by rewrite IH.
Qed.

Lemma lookup_setitem k x d : OrderedDict.lookup k (OrderedDict.setitem k x d) = Some x.
Proof.
  induction d as [|[k' x'] d IH]; simpl.
  - by rewrite decide_True.
  - destruct (decide (k = k')) as [->|Hne]; simpl.
    + by rewrite decide_True.
    + by rewrite decide_False.
Qed.


Lemma lookup_tail_absent k d :
  OrderedDict.lookup k d = None -> OrderedDict.lookup k (tail d) = None.
Proof. destruct d as [|[k' x'] d]; [done|]. simpl. by destruct (decide (k = k')). Qed.
End ordered_dict.

Lemma Qgtb_true (a b : Q) : Qgtb a b = true <-> (b < a)%Q.
Proof.
  unfold Qgtb. rewrite negb_true_iff, <- not_true_iff_false, Qle_bool_iff.
  split; [apply Qnot_le_lt | apply Qlt_not_le].
Qed.

Lemma Qgtb_false (a b : Q) : Qgtb a b = false <-> (a <= b)%Q.
Proof. unfold Qgtb. by rewrite negb_false_iff, Qle_bool_iff. Qed.

(** ** C5, C6: the memory backend *)

Section memory_backend.
Context {V : Type}.
Implicit Types (s : MemoryCacheBackend.t V) (k : string) (v : V) (now : Q).

Lemma delete_cache k s :
  MemoryCacheBackend._cache (MemoryCacheBackend.delete k s)
  = OrderedDict.delitem k (MemoryCacheBackend._cache s).
Proof.
  unfold MemoryCacheBackend.delete.
  destruct (OrderedDict.mem k _) eqn:E; [done|].
  apply mem_false in E. by rewrite delitem_absent.
Qed.

Lemma delete_max_size k s :
  MemoryCacheBackend.max_size (MemoryCacheBackend.delete k s) = MemoryCacheBackend.max_size s.
Proof. unfold MemoryCacheBackend.delete. by destruct (OrderedDict.mem k _). Qed.



Lemma get_max_size k now s :
  MemoryCacheBackend.max_size (MemoryCacheBackend.get k now s).2 = MemoryCacheBackend.max_size s.
Proof.
  unfold MemoryCacheBackend.get.
  destruct (OrderedDict.lookup k _) as [[data expiry]|]; [|done].
  destruct (Qgtb now expiry); simpl; [apply delete_max_size | done].
Qed.








(** A full store evicts its oldest item, then admits the new key last. *)
Lemma set_evicts_oldest k v ttl now s :
  OrderedDict.lookup k (MemoryCacheBackend._cache s) = None ->
  MemoryCacheBackend.max_size s <= Z.of_nat (length (MemoryCacheBackend._cache s)) ->
  MemoryCacheBackend._cache s <> [] ->
  MemoryCacheBackend.set k v ttl now s
  = inr (MemoryCacheBackend.with_cache
           (tail (MemoryCacheBackend._cache s)
              ++ [(k, (v, (now + inject_Z (match ttl with
                                           | Some n => n
                                           | None => MemoryCacheBackend.default_ttl s
                                           end))%Q))]) s).
Proof.
  intros Hk Hfull Hne. unfold MemoryCacheBackend.set.
  rewrite (proj2 (mem_false _ _) Hk).
  destruct (Z.geb_spec (Z.of_nat (length (MemoryCacheBackend._cache s)))
              (MemoryCacheBackend.max_size s)) as [_|?]; [|lia].
  destruct (MemoryCacheBackend._cache s) as [|[k' x'] c] eqn:Ec; [done|]. simpl.
  rewrite setitem_absent; [done|].
  simpl in Hk. by destruct (decide (k = k')).
Qed.
End memory_backend.



(** C6: [get] on a memory backend.  An absent key gives [None] and leaves the
    store as it was; a present key whose expiry lies before the clock reading
    gives [None] and the entry is removed; a present key that has not expired
    gives the stored value and moves to the end of the access order (most
    recently used).  After a successful [set k v] with a TTL of 1 at time
    [now], [get k] gives [v] at any time up to [now + 1], at once in
    particular, and [None] at any later time, from [now + 2] on in
    particular; and that [set] succeeds whenever [max_size >= 1]. *)
Theorem C6_get_absent_expired_fresh :
  forall (V : Type) (s : MemoryCacheBackend.t V) (k : string) (now : Q),
    (OrderedDict.lookup k (MemoryCacheBackend._cache s) = None ->
     MemoryCacheBackend.get k now s = (None, s))
    /\ (forall v expiry,
          OrderedDict.lookup k (MemoryCacheBackend._cache s) = Some (v, expiry) ->
          (expiry < now)%Q ->
          exists s',
            MemoryCacheBackend.get k now s = (None, s')
            /\ MemoryCacheBackend._cache s' = OrderedDict.delitem k (MemoryCacheBackend._cache s)
            /\ OrderedDict.lookup k (MemoryCacheBackend._cache s') = None)
    /\ (forall v expiry,
          OrderedDict.lookup k (MemoryCacheBackend._cache s) = Some (v, expiry) ->
          (now <= expiry)%Q ->
          exists s',
            MemoryCacheBackend.get k now s = (Some v, s')
            /\ MemoryCacheBackend._cache s'
               = OrderedDict.delitem k (MemoryCacheBackend._cache s) ++ [(k, (v, expiry))]
            /\ last (OrderedDict.keys (MemoryCacheBackend._cache s')) = Some k)
    /\ (forall v s',
          MemoryCacheBackend.set k v (Some 1) now s = inr s' ->
          (MemoryCacheBackend.get k now s').1 = Some v
          /\ (forall later, (later <= now + 1)%Q -> (MemoryCacheBackend.get k later s').1 = Some v)
          /\ (forall later, (now + 1 < later)%Q -> (MemoryCacheBackend.get k later s').1 = None)
          /\ (forall later, (now + 2 <= later)%Q -> (MemoryCacheBackend.get k later s').1 = None))
    /\ (forall v, 1 <= MemoryCacheBackend.max_size s ->
                  exists s', MemoryCacheBackend.set k v (Some 1) now s = inr s').
Proof.
  intros V s k now. split_and!.
  - intros Hk. unfold MemoryCacheBackend.get. by rewrite Hk.
  - intros v expiry Hk Hexp. exists (MemoryCacheBackend.delete k s).
    unfold MemoryCacheBackend.get. rewrite Hk, (proj2 (Qgtb_true _ _) Hexp).
    rewrite delete_cache. split_and!; [done | done | apply lookup_delitem].
  - intros v expiry Hk Hfresh. eexists.
    unfold MemoryCacheBackend.get. rewrite Hk, (proj2 (Qgtb_false _ _) Hfresh).
    split; [reflexivity|]. simpl. unfold OrderedDict.move_to_end. rewrite Hk.
    split; [done|]. unfold OrderedDict.keys. rewrite fmap_app. cbn [fmap list_fmap fst].
    apply last_snoc.
  - intros v s' Hset.
    assert (OrderedDict.lookup k (MemoryCacheBackend._cache s')
            = Some (v, (now + inject_Z 1)%Q)) as Hk.
    { unfold MemoryCacheBackend.set in Hset.
      destruct (if Z.of_nat _ >=? _ then _ else _) as [e|c2]; [done|].
      injection Hset as <-. simpl. apply lookup_setitem. }
    assert (forall later, (later <= now + 1)%Q ->
                          (MemoryCacheBackend.get k later s').1 = Some v) as Hfresh.
    { intros later Hl. unfold MemoryCacheBackend.get. rewrite Hk.
      by rewrite (proj2 (Qgtb_false later (now + inject_Z 1)) Hl). }
    assert (forall later, (now + 1 < later)%Q ->
                          (MemoryCacheBackend.get k later s').1 = None) as Hexp.
    { intros later Hl. unfold MemoryCacheBackend.get. rewrite Hk.
      by rewrite (proj2 (Qgtb_true later (now + inject_Z 1)) Hl). }
    split_and!; [|done|done|].
    + apply Hfresh. lra.
    + intros later Hl. apply Hexp. lra.
  - intros v Hmax. unfold MemoryCacheBackend.set.
    set (c1 := if OrderedDict.mem k _ then _ else _).
    destruct (Z.geb_spec (Z.of_nat (length c1)) (MemoryCacheBackend.max_size s)) as [Hge|Hlt];
      [|by eexists].
    destruct c1; simpl in *; [lia | by eexists].
Qed.

(** C6 at a store of two entries read at time 10: [a] expired at 5 and is
    removed, [b] is fresh until 20, is returned and goes last, [zz] is absent;
    and an entry written with a TTL of 1 at time 10 is read at 10 and gone
    at 12. *)
Lemma C6_get_absent_expired_fresh_witness :
  let s := MemoryCacheBackend.with_cache [("a", ("A", 5%Q)); ("b", ("B", 20%Q))]
             (MemoryCacheBackend.init 2 300) in
  (exists s', MemoryCacheBackend.get "a" 10 s = (None, s')
              /\ MemoryCacheBackend._cache s' = OrderedDict.delitem "a" (MemoryCacheBackend._cache s)
              /\ OrderedDict.lookup "a" (MemoryCacheBackend._cache s') = None)
  /\ (exists s', MemoryCacheBackend.get "b" 10 s = (Some "B", s')
                 /\ MemoryCacheBackend._cache s'
                    = OrderedDict.delitem "b" (MemoryCacheBackend._cache s) ++ [("b", ("B", 20%Q))]
                 /\ last (OrderedDict.keys (MemoryCacheBackend._cache s')) = Some "b")
  /\ MemoryCacheBackend.get "zz" 10 s = (None, s)
  /\ (exists s', MemoryCacheBackend.set "k" "V" (Some 1) 10 s = inr s'
                 /\ (MemoryCacheBackend.get "k" 10 s').1 = Some "V"
                 /\ (MemoryCacheBackend.get "k" 12 s').1 = None).
Proof.
  intros s.
  pose proof (C6_get_absent_expired_fresh string s "a" 10%Q) as (_ & Ha & _).
  pose proof (C6_get_absent_expired_fresh string s "b" 10%Q) as (_ & _ & Hb & _).
  pose proof (C6_get_absent_expired_fresh string s "zz" 10%Q) as (Hz & _).
  pose proof (C6_get_absent_expired_fresh string s "k" 10%Q) as (_ & _ & _ & Hk & Hk').
  split_and!.
  - apply (Ha "A" 5%Q); reflexivity.
  - apply (Hb "B" 20%Q); [reflexivity | by vm_compute].
  - apply Hz. reflexivity.
  - destruct (Hk' "V") as [s' Hs']; [by vm_compute|].
    exists s'. split; [exact Hs'|].
    destruct (Hk "V" s' Hs') as (Hnow & _ & _ & Hlater).
    split; [exact Hnow|]. apply Hlater. by vm_compute.
Defined.

(** ** C4: the hit rate *)

(** *** Rounding to the nearest float *)

Lemma pow2_pos e : (0 < 2 ^ e)%Q.
Proof. by apply Qpower_0_lt. Qed.

Lemma pow2_le e e' : e <= e' -> (2 ^ e <= 2 ^ e')%Q.
Proof. intros H. by apply Qpower_le_compat_l. Qed.

Lemma ilog2_le (q : Q) : (0 < q)%Q -> (2 ^ PyFloat.ilog2 q <= q)%Q.
Proof.
  intros Hq. unfold PyFloat.ilog2.
  destruct (Qle_bool _ q) eqn:E; [by apply Qle_bool_iff|]. clear E.
  destruct q as [n d]. unfold Qlt in Hq. cbn [Qnum Qden] in *.
  assert (0 < n) as Hn by lia.
  pose proof (Z.log2_spec n Hn) as [Hlo _].
  pose proof (Z.log2_spec (Z.pos d) eq_refl) as [_ Hhi].
  pose proof (Z.log2_nonneg n) as H1. pose proof (Z.log2_nonneg (Z.pos d)) as H2.
  set (ln := Z.log2 n) in *. set (ld := Z.log2 (Z.pos d)) in *.
  replace (ln - ld - 1) with (ln - (ld + 1)) by lia.
  rewrite Qpower_minus by done.
  change 2%Q with (inject_Z 2).
  rewrite <- (Zpower_Qpower 2 ln), <- (Zpower_Qpower 2 (ld + 1)) by lia.
  rewrite (Qmake_Qdiv n d).
  assert (0 < inject_Z (Z.pos d))%Q as Hd by done.
  assert (0 < inject_Z (2 ^ (ld + 1)))%Q as Hp.
  { change 0%Q with (inject_Z 0). rewrite <- Zlt_Qlt. lia. }
  apply Qle_shift_div_l; [exact Hd|].
  unfold Qdiv. rewrite <- Qmult_assoc, (Qmult_comm (/ _)), Qmult_assoc.
  apply Qle_shift_div_r; [exact Hp|].
  rewrite <- !inject_Z_mult, <- Zle_Qle.
  replace (Z.succ ld) with (ld + 1) in Hhi by lia. nia.
Qed.

Lemma ilog2_lt (q : Q) : (0 < q)%Q -> (q < 2 ^ (PyFloat.ilog2 q + 1))%Q.
Proof.
  intros Hq. unfold PyFloat.ilog2.
  destruct (Qle_bool _ q) eqn:E.
  - clear E. destruct q as [n d]. unfold Qlt in Hq. cbn [Qnum Qden] in *.
    assert (0 < n) as Hn by lia.
    pose proof (Z.log2_spec n Hn) as [_ Hhi].
    pose proof (Z.log2_spec (Z.pos d) eq_refl) as [Hlo _].
    pose proof (Z.log2_nonneg n) as H1. pose proof (Z.log2_nonneg (Z.pos d)) as H2.
    set (ln := Z.log2 n) in *. set (ld := Z.log2 (Z.pos d)) in *.
    replace (ln - ld + 1) with (ln + 1 - ld) by lia.
    rewrite Qpower_minus by done.
    change 2%Q with (inject_Z 2).
    rewrite <- (Zpower_Qpower 2 (ln + 1)), <- (Zpower_Qpower 2 ld) by lia.
    rewrite (Qmake_Qdiv n d).
    assert (0 < inject_Z (Z.pos d))%Q as Hd by done.
    assert (0 < inject_Z (2 ^ ld))%Q as Hp.
    { change 0%Q with (inject_Z 0). rewrite <- Zlt_Qlt. lia. }
    apply Qlt_shift_div_r; [exact Hd|].
    unfold Qdiv. rewrite <- Qmult_assoc, (Qmult_comm (/ _)), Qmult_assoc.
    apply Qlt_shift_div_l; [exact Hp|].
    rewrite <- !inject_Z_mult, <- Zlt_Qlt.
    replace (Z.succ ln) with (ln + 1) in Hhi by lia. nia.
  - replace (_ - 1 + 1) with (Z.log2 (Qnum q) - Z.log2 (Z.pos (Qden q))) by lia.
    apply Qnot_le_lt. intros H. apply Qle_bool_iff in H. congruence.
Qed.

Lemma round_half_even_near (x : Q) :
  (Qabs (inject_Z (PyFloat.round_half_even x) - x) <= 1 # 2)%Q.
Proof.
  unfold PyFloat.round_half_even.
  pose proof (Qfloor_le x) as Hlo. pose proof (Qlt_floor x) as Hhi.
  rewrite inject_Z_plus in Hhi. change (inject_Z 1) with 1%Q in Hhi.
  apply Qabs_Qle_condition.
  destruct (x - inject_Z (Qfloor x) ?= 1 # 2)%Q eqn:E.
  - apply Qeq_alt in E.
    destruct (Z.even (Qfloor x)); rewrite ?inject_Z_plus; change (inject_Z 1) with 1%Q;
      split; lra.
  - apply Qlt_alt in E. split; lra.
  - apply Qgt_alt in E. rewrite inject_Z_plus. change (inject_Z 1) with 1%Q. split; lra.
Qed.

Lemma round_half_even_range (x : Q) (n : Z) :
  (0 <= x)%Q -> (x <= inject_Z n)%Q -> 0 <= PyFloat.round_half_even x <= n.
Proof.
  intros H0 Hn. unfold PyFloat.round_half_even.
  pose proof (Qfloor_le x) as Hlo. pose proof (Qlt_floor x) as Hhi.
  assert (0 <= Qfloor x).
  { change 0 with (Qfloor 0). by apply Qfloor_resp_le. }
  assert (Qfloor x <= n).
  { rewrite <- (Qfloor_Z n). by apply Qfloor_resp_le. }
  assert (forall k : Z, (inject_Z (Qfloor x) + (1 # 2) <= x)%Q -> Qfloor x + 1 <= n) as Hup.
  { intros _ Hhalf. assert (inject_Z (Qfloor x) < inject_Z n)%Q as Hlt by lra.
    rewrite <- Zlt_Qlt in Hlt. lia. }
  destruct (x - inject_Z (Qfloor x) ?= 1 # 2)%Q eqn:E.
  - apply Qeq_alt in E. destruct (Z.even (Qfloor x)); [lia|].
    split; [lia|]. apply (Hup 0). lra.
  - lia.
  - apply Qgt_alt in E. split; [lia|]. apply (Hup 0). lra.
Qed.

(** The exponent [round] works at. *)
Lemma round_unfold (q : Q) :
  ~ (q == 0)%Q ->
  PyFloat.round q
  = (inject_Z (PyFloat.round_half_even
                 (q / 2 ^ Z.max (PyFloat.ilog2 (Qabs q) - 52) (-1074)))
     * 2 ^ Z.max (PyFloat.ilog2 (Qabs q) - 52) (-1074))%Q.
Proof.
  intros Hq. unfold PyFloat.round.
  destruct (Qeq_bool q 0) eqn:E; [|done]. by apply Qeq_bool_iff in E.
Qed.

Lemma Qabs_pos_nonzero (q : Q) : ~ (q == 0)%Q -> (0 < Qabs q)%Q.
Proof.
  intros Hq. destruct (Qlt_le_dec 0 (Qabs q)) as [|Hle]; [done|].
  exfalso. apply Hq. apply Qabs_Qle_condition in Hle. lra.
Qed.

(** Rounding moves a number of magnitude at most [2^K] by at most half a
    unit in the last of its 53 places. *)
Lemma round_error (q : Q) (K : Z) :
  -1022 <= K -> (Qabs q <= 2 ^ K)%Q ->
  (Qabs (PyFloat.round q - q) <= 2 ^ (K - 53))%Q.
Proof.
  intros HK Hq.
  destruct (Qeq_dec q 0) as [H0|H0].
  { unfold PyFloat.round. rewrite (proj2 (Qeq_bool_iff q 0) H0).
    pose proof (pow2_pos (K - 53)). apply Qabs_Qle_condition. split; lra. }
  rewrite (round_unfold q H0).
  set (e := Z.max (PyFloat.ilog2 (Qabs q) - 52) (-1074)).
  assert (e <= K - 52) as He.
  { pose proof (ilog2_le (Qabs q) (Qabs_pos_nonzero q H0)) as Hl.
    assert (PyFloat.ilog2 (Qabs q) <= K).
    { apply (Qpower_le_compat_l_inv 2); [|done]. by apply Qle_trans with (Qabs q). }
    subst e. lia. }
  pose proof (pow2_pos e) as Hpe.
  pose proof (round_half_even_near (q / 2 ^ e)) as Hn.
  assert (2 ^ (K - 53) == 2 ^ (K - 52) * (1 # 2))%Q as ->.
  { replace (K - 53) with (K - 52 + -1) by lia. rewrite Qpower_plus by done. reflexivity. }
  pose proof (pow2_le e (K - 52) He) as Hle.
  assert (inject_Z (PyFloat.round_half_even (q / 2 ^ e)) * 2 ^ e - q
          == (inject_Z (PyFloat.round_half_even (q / 2 ^ e)) - q / 2 ^ e) * 2 ^ e)%Q as ->
    by (field; lra).
  rewrite Qabs_Qmult, (Qabs_pos (2 ^ e)) by lra.
  apply Qle_trans with ((1 # 2) * 2 ^ e)%Q.
  - apply Qmult_le_compat_r; [exact Hn | lra].
  - lra.
Qed.

(** Rounding does not leave an interval whose ends are [0] and an integer
    below [2^53]. *)
Lemma round_range (q : Q) (B : Z) :
  0 < B < 2 ^ 53 -> (0 <= q)%Q -> (q <= inject_Z B)%Q ->
  (0 <= PyFloat.round q <= inject_Z B)%Q.
Proof.
  intros HB Hq0 HqB.
  assert (0 < inject_Z B)%Q as HB0.
  { change 0%Q with (inject_Z 0). rewrite <- Zlt_Qlt. lia. }
  destruct (Qeq_dec q 0) as [H0|H0].
  { unfold PyFloat.round. rewrite (proj2 (Qeq_bool_iff q 0) H0). split; lra. }
  rewrite (round_unfold q H0).
  set (e := Z.max (PyFloat.ilog2 (Qabs q) - 52) (-1074)).
  assert (e <= 0) as He.
  { pose proof (ilog2_le (Qabs q) (Qabs_pos_nonzero q H0)) as Hl.
    pose proof (Qabs_pos q Hq0) as Habs.
    assert (PyFloat.ilog2 (Qabs q) < 53).
    { apply (Qpower_lt_compat_l_inv 2); [|done].
      apply Qle_lt_trans with (inject_Z B); [lra|].
      change 2%Q with (inject_Z 2). rewrite <- Zpower_Qpower by lia.
      rewrite <- Zlt_Qlt. lia. }
    subst e. lia. }
  pose proof (pow2_pos e) as Hpe.
  assert (inject_Z B / 2 ^ e == inject_Z (B * 2 ^ (- e)))%Q as HBe.
  { rewrite inject_Z_mult. change (inject_Z (2 ^ (- e))) with (inject_Z (2 ^ (- e))).
    rewrite (Zpower_Qpower 2 (- e)) by lia. change (inject_Z 2) with 2%Q.
    rewrite Qpower_opp. reflexivity. }
  destruct (round_half_even_range (q / 2 ^ e) (B * 2 ^ (- e))) as [Hr0 Hr1].
  - apply Qle_shift_div_l; [done|]. lra.
  - rewrite <- HBe. unfold Qdiv. apply Qmult_le_compat_r; [done|].
    apply Qlt_le_weak, Qinv_lt_0_compat, Hpe.
  - rewrite Zle_Qle in Hr0, Hr1. rewrite <- HBe in Hr1. change (inject_Z 0) with 0%Q in Hr0.
    split.
    + apply Qmult_le_0_compat; lra.
    + assert (inject_Z B == inject_Z B / 2 ^ e * 2 ^ e)%Q as -> by (field; lra).
      apply Qmult_le_compat_r; lra.
Qed.

(** The rounding against CPython: the floats [0.1] and [1 / 3], and
    [round(h / t * 100, 2)] for 49 and 51 hits in 160 requests (30.63 and
    31.87, the percentages being 30.625 and 31.875), 1 in 20000 (0.01) and
    1 in 3 (33.33). *)
Lemma float_examples :
  (PyFloat.round (1 # 10) == 3602879701896397 # 36028797018963968)%Q
  /\ (PyFloat.truediv 1 3 == 6004799503160661 # 18014398509481984)%Q
  /\ (PyFloat.round2 (PyFloat.mul (PyFloat.truediv 49 160) 100)
      == 8621578536647393 # 281474976710656)%Q
  /\ (PyFloat.round2 (PyFloat.mul (PyFloat.truediv 51 160) 100)
      == 8970607507768607 # 281474976710656)%Q
  /\ (PyFloat.round2 (PyFloat.mul (PyFloat.truediv 1 20000) 100)
      == 5764607523034235 # 576460752303423488)%Q
  /\ (PyFloat.round2 (PyFloat.mul (PyFloat.truediv 1 3) 100)
      == 2345390243441541 # 70368744177664)%Q.
Proof. split_and!; by vm_compute. Qed.

(** *** The counters and the reported rate *)

Lemma counters_after (l : list served) :
  let s := foldl count_request no_requests l in
  hits s = count_served Hit l
  /\ misses s = count_served Miss l
  /\ total_requests s = count_served Hit l + count_served Miss l.
Proof.
  induction l as [|o l IH] using rev_ind; [done|].
  rewrite foldl_app. simpl. unfold count_served in *. rewrite !filter_app, !length_app.
  destruct IH as (Hh & Hm & Ht).
  destruct o; simpl; rewrite Hh, Hm, Ht; rewrite ?filter_cons, ?filter_nil; simpl;
    split_and!; lia.
Qed.

(** The rate computed from [h] hits in [t] requests: each of the two float
    operations and the final conversion of the decimal is off by at most
    [2^-46], the rounding to two decimals by at most [1/200]. *)
Lemma hit_rate_of_counters (h t : Z) :
  0 <= h <= t -> 0 < t ->
  exists n : Z,
    0 <= n <= 10000
    /\ PyFloat.round2 (PyFloat.mul (PyFloat.truediv h t) 100)
       = PyFloat.round (inject_Z n / 100)
    /\ (0 <= PyFloat.round (inject_Z n / 100) <= 100)%Q
    /\ (Qabs (inject_Z n / 100 - 100 * inject_Z h / inject_Z t)
        <= (1 # 200) + (1 # 10000000000000))%Q
    /\ (Qabs (PyFloat.round (inject_Z n / 100) - 100 * inject_Z h / inject_Z t)
        <= (1 # 200) + (1 # 10000000000000))%Q.
Proof.
  intros [Hh Hht] Ht.
  assert (0 < inject_Z t)%Q as Hqt.
  { change 0%Q with (inject_Z 0). rewrite <- Zlt_Qlt. lia. }
  assert (0 <= inject_Z h)%Q as Hqh.
  { change 0%Q with (inject_Z 0). rewrite <- Zle_Qle. lia. }
  assert (inject_Z h <= inject_Z t)%Q as Hqht by (rewrite <- Zle_Qle; lia).
  set (pct := (100 * inject_Z h / inject_Z t)%Q).
  set (p := (inject_Z h / inject_Z t)%Q).
  assert (pct == p * 100)%Q as Hpct by (subst pct p; field; lra).
  assert (0 <= p)%Q as Hp0 by (apply Qle_shift_div_l; [done | lra]).
  assert (p <= 1)%Q as Hp1 by (apply Qle_shift_div_r; [done | lra]).
  unfold PyFloat.round2, PyFloat.mul, PyFloat.truediv. fold p.
  set (x1 := PyFloat.round p).
  destruct (round_range p 1) as [Hx10 Hx11]; [lia | done | done |]. fold x1 in Hx10, Hx11.
  change (inject_Z 1) with 1%Q in Hx11.
  pose proof (round_error p 0) as E1. fold x1 in E1.
  set (x2 := PyFloat.round (x1 * 100)).
  destruct (round_range (x1 * 100) 100) as [Hx20 Hx21]; [lia | lra | |].
  { change (inject_Z 100) with 100%Q. lra. }
  fold x2 in Hx20, Hx21. change (inject_Z 100) with 100%Q in Hx21.
  pose proof (round_error (x1 * 100) 7) as E2. fold x2 in E2.
  set (n := PyFloat.round_half_even (x2 * 100)).
  destruct (round_half_even_range (x2 * 100) 10000) as [Hn0 Hn1]; [lra | |].
  { change (inject_Z 10000) with 10000%Q. lra. }
  fold n in Hn0, Hn1.
  pose proof (round_half_even_near (x2 * 100)) as En. fold n in En.
  assert (0 <= inject_Z n)%Q as Hqn0.
  { change 0%Q with (inject_Z 0). rewrite <- Zle_Qle. lia. }
  assert (inject_Z n <= 10000)%Q as Hqn1.
  { change 10000%Q with (inject_Z 10000). rewrite <- Zle_Qle. lia. }
  set (d := (inject_Z n / 100)%Q).
  assert (d == inject_Z n * (1 # 100))%Q as Hd by reflexivity.
  destruct (round_range d 100) as [Hr0 Hr1]; [lia | lra | |].
  { change (inject_Z 100) with 100%Q. lra. }
  change (inject_Z 100) with 100%Q in Hr1.
  pose proof (round_error d 7) as E3.
  set (rate := PyFloat.round d) in *.
  set (c53 := (2 ^ (0 - 53))%Q) in *. set (c46 := (2 ^ (7 - 53))%Q) in *.
  assert (c53 == 1 # 9007199254740992)%Q as Hc53 by reflexivity.
  assert (c46 == 1 # 70368744177664)%Q as Hc46 by reflexivity.
  assert (2 ^ 0 == 1)%Q as Hone by reflexivity.
  assert (2 ^ 7 == 128)%Q as H128 by reflexivity.
  apply Qabs_Qle_condition in En.
  assert (Qabs p <= 2 ^ 0)%Q as A1 by (apply Qabs_Qle_condition; lra).
  assert (Qabs (x1 * 100) <= 2 ^ 7)%Q as A2 by (apply Qabs_Qle_condition; lra).
  assert (Qabs d <= 2 ^ 7)%Q as A3 by (apply Qabs_Qle_condition; lra).
  specialize (E1 ltac:(lia) A1). specialize (E2 ltac:(lia) A2). specialize (E3 ltac:(lia) A3).
  apply Qabs_Qle_condition in E1, E2, E3.
  clear A1 A2 A3 Hone H128.
  exists n. change (inject_Z n / 100)%Q with d. change (PyFloat.round d) with rate.
  split; [lia|]. split; [reflexivity|]. split; [split; lra|].
  split; apply Qabs_Qle_condition; split; lra.
Qed.

Lemma hit_rate_range settings (s : CacheStats) :
  0 <= hits s <= total_requests s ->
  (0 <= Stats.hit_rate (Stats.get_stats settings s) <= 100)%Q.
Proof.
  intros Hs. unfold Stats.get_stats. cbn [Stats.hit_rate].
  destruct (Z.gtb_spec (total_requests s) 0) as [Hpos|_]; [|by vm_compute].
  destruct (hit_rate_of_counters (hits s) (total_requests s)) as (n & _ & -> & Hr & _);
    [done | lia | exact Hr].
Qed.

(** C4, as the code has it.  For counters with [0 <= hits <= total_requests]
    (all that a run produces, failed cache reads included), the reported hit
    rate is 0 when no request was counted; otherwise it is the float nearest
    to a decimal [n/100] between 0 and 100 that lies within [1/200 + 10^-13]
    of the percentage [100 * hits / total_requests]: the percentage computed
    in floats and rounded to two decimals.  After M hits and N misses and
    nothing else the counters are M, N and M + N. *)
Theorem C4_hit_rate_is_rounded_percentage (settings : Settings) (s : CacheStats) :
  0 <= hits s <= total_requests s ->
  let rate := Stats.hit_rate (Stats.get_stats settings s) in
  let percentage := (100 * inject_Z (hits s) / inject_Z (total_requests s))%Q in
  (total_requests s = 0 -> (rate == 0)%Q)
  /\ (0 < total_requests s ->
      exists n : Z,
        0 <= n <= 10000
        /\ rate = PyFloat.round (inject_Z n / 100)
        /\ (Qabs (inject_Z n / 100 - percentage) <= (1 # 200) + (1 # 10000000000000))%Q
        /\ (Qabs (rate - percentage) <= (1 # 200) + (1 # 10000000000000))%Q)
  /\ (forall l : list served,
        s = foldl count_request no_requests l ->
        hits s = count_served Hit l
        /\ misses s = count_served Miss l
        /\ total_requests s = count_served Hit l + count_served Miss l).
Proof.
  intros Hs rate percentage. split_and!.
  - intros H0. subst rate. unfold Stats.get_stats. cbn [Stats.hit_rate]. by rewrite H0.
  - intros Hpos. subst rate percentage. unfold Stats.get_stats. cbn [Stats.hit_rate].
    destruct (Z.gtb_spec (total_requests s) 0) as [_|?]; [|lia].
    destruct (hit_rate_of_counters (hits s) (total_requests s))
      as (n & Hn & Hrate & _ & Hd & Hr); [done | done |].
    exists n. rewrite Hrate. exact (conj Hn (conj eq_refl (conj Hd Hr))).
  - intros l ->. apply counters_after.
Qed.

(** C4 at 23 hits in 160 requests: the percentage is 14.375 and the reported
    rate is the float 14.37, the product computed in floats lying just below
    14.375. *)
Lemma C4_hit_rate_is_rounded_percentage_witness :
  let s := {| hits := 23; misses := 137; total_requests := 160 |} in
  let rate := Stats.hit_rate (Stats.get_stats Example.memory_settings s) in
  rate = PyFloat.round (1437 # 100)
  /\ (Qabs (rate - 100 * 23 / 160) <= (1 # 200) + (1 # 10000000000000))%Q.
Proof.
  intros s rate. split; [by vm_compute|].
  destruct (C4_hit_rate_is_rounded_percentage Example.memory_settings s) as (_ & H & _).
  { simpl. lia. }
  destruct H as (n & _ & _ & _ & Hr); [simpl; lia|]. exact Hr.
Defined.

(** C4, as the claim has it, fails: after one hit and one miss the reported
    hit rate is 50, not 1/2. *)
Lemma C4_hit_rate_is_not_the_plain_ratio :
  let s := foldl count_request no_requests [Miss; Hit] in
  let rate := Stats.hit_rate (Stats.get_stats
     Example.memory_settings s) in
  (hits s = 1 /\ total_requests s = 2)
  /\ (rate == 50)%Q
  /\ ~ (rate == inject_Z (hits s) / inject_Z (total_requests s))%Q.
Proof.
  split_and!; [done | done | by vm_compute |].
  intros H. vm_compute in H. discriminate H.
Qed.

(** ** C1, C2, C8: the cache-aside protocol *)

Lemma setattr_new (f : ProxyResponse.t -> ProxyResponse.t) (h : Heap.t) (r : ProxyResponse.t) :
  Heap.setattr (length h) f (h ++ [r]) = h ++ [f r].
Proof.
  unfold Heap.setattr. induction h as [|x h IH]; [done|].
  cbn. f_equal. exact IH.
Qed.

Lemma deref_new (h : Heap.t) (r : ProxyResponse.t) : Heap.deref (length h) (h ++ [r]) = r.
Proof. unfold Heap.deref. by apply list_lookup_total_middle. Qed.

Lemma Manager_set_heap key l ttl now w w' res :
  Manager.set key l ttl now w = (w', res) -> heap w' = heap w.
Proof.
  unfold Manager.set. destruct (cache_manager w) as [m|b].
  - destruct (MemoryCacheBackend.set key l (Some ttl) now m); by intros [= <- _].
  - destruct (RedisCacheBackend.set _ _ _ _ _ _) as [[b' sv'] r]. by intros [= <- _].
Qed.

(** A miss with a cacheable answer from the origin: the outcome of the request
    is the outcome of the cache write. *)
Lemma process_proxy_request_miss settings request ttl env w w1 status content headers :
  Manager.get (generate_cache_key request) (now_get env) (with_stats incr_total w)
  = (w1, inr None) ->
  origin env = inr (status, content, headers) ->
  is_cacheable_response status headers = true ->
  process_proxy_request settings request ttl env w
  = let '(l, w2) := fetched (generate_cache_key request) (status, content, headers) w1 in
    match Manager.set (generate_cache_key request) l (ttl_or ttl (cache_ttl settings))
            (now_set env) w2 with
    | (w3, inl e) => (w3, inl e)
    | (w3, inr _) => (w3, inr l)
    end.
Proof.
  intros Hget Horigin Hcacheable.
  unfold process_proxy_request, bind, modify, gets, ret. rewrite Hget.
  unfold make_http_request. rewrite Horigin. unfold new_object, Heap.alloc. simpl.
  rewrite setattr_new, deref_new. simpl. rewrite Hcacheable.
  unfold fetched, with_heap, with_stats. simpl. rewrite ?setattr_new. simpl.
  by destruct (Manager.set _ _ _ _ _) as [w3 [e|[]]].
Qed.

(** C1, as the code has it: on a miss whose origin fetch succeeded with a
    cacheable response, a failure raised by the cache write is the outcome of
    the request (no response is returned); the fetched response, with
    [from_cache] false, is returned when the write succeeds. *)
Theorem C1_cache_write_failure_fails_the_request :
  forall settings request ttl env w w1 status content headers,
    Manager.get (generate_cache_key request) (now_get env) (with_stats incr_total w)
    = (w1, inr None) ->
    origin env = inr (status, content, headers) ->
    is_cacheable_response status headers = true ->
    let key := generate_cache_key request in
    let l := (fetched key (status, content, headers) w1).1 in
    let w2 := (fetched key (status, content, headers) w1).2 in
    let write := Manager.set key l (ttl_or ttl (cache_ttl settings)) (now_set env) w2 in
    (forall e, write.2 = inl e ->
               process_proxy_request settings request ttl env w = (write.1, inl e))
    /\ (write.2 = inr tt ->
        process_proxy_request settings request ttl env w = (write.1, inr l)
        /\ ProxyResponse.from_cache <$> (heap write.1 !! l) = Some false).
Proof.
  intros settings request ttl env w w1 status content headers Hget Horigin Hc key l w2 write.
  rewrite (process_proxy_request_miss _ _ _ _ _ _ _ _ _ Hget Horigin Hc).
  fold key. destruct (fetched key (status, content, headers) w1) as [l' w2'] eqn:Ef.
  subst l w2. cbn [fst snd] in write.
  destruct (Manager.set key l' (ttl_or ttl (cache_ttl settings)) (now_set env) w2')
    as [w3 res] eqn:Eset.
  subst write. cbn [fst snd]. split.
  - by intros e ->.
  - intros ->. split; [done|].
    rewrite (Manager_set_heap _ _ _ _ _ _ _ Eset).
    unfold fetched in Ef. injection Ef as <- <-. cbn [heap with_heap with_stats].
    by rewrite list_lookup_middle.
Qed.

(** C1 on a Redis-backed process whose first command (the read) goes through
    and whose second command (the write) fails. *)
Lemma C1_cache_write_failure_fails_the_request_witness :
  Example.start Example.redis_settings [false; true]
  = inr (Example.redis_process [false; true])
  /\ exists w',
      process_proxy_request Example.redis_settings Example.request None (Example.env 10)
        (Example.redis_process [false; true])
      = (w', inl StoreUnavailable).
Proof.
  split; [reflexivity|]. eexists.
  apply (proj1 (C1_cache_write_failure_fails_the_request
                  Example.redis_settings Example.request None (Example.env 10)
                  (Example.redis_process [false; true])
                  (Manager.get (generate_cache_key Example.request)
                     (now_get (Example.env 10))
                     (with_stats incr_total (Example.redis_process [false; true]))).1
                  200 [] ∅ eq_refl eq_refl eq_refl)).
  reflexivity.
Defined.

(** C1, as the claim has it, fails: the origin answers 200, the Redis write
    fails, and the request ends in the store failure; no response is
    returned, although the miss has been counted. *)
Lemma C1_redis_write_failure_is_raised :
  exists w0,
    Example.start Example.redis_settings [false; true] = inr w0
    /\ (process_proxy_request Example.redis_settings Example.request None
          (Example.env 10) w0).2 = inl StoreUnavailable
    /\ cache_stats (process_proxy_request Example.redis_settings Example.request None
                      (Example.env 10) w0).1
       = {| hits := 0; misses := 1; total_requests := 1 |}.
Proof. eexists. split; [reflexivity|]. split; by vm_compute. Qed.

Lemma lookup_app_present {X} k (x : X) d1 d2 :
  OrderedDict.lookup k d1 = None ->
  OrderedDict.lookup k (d1 ++ (k, x) :: d2) = Some x.
Proof.
  induction d1 as [|[k' x'] d1 IH]; simpl.
  - by rewrite decide_True.
  - destruct (decide (k = k')); [done|]. exact IH.
Qed.

(** A hit on a memory backend hands out the stored object itself, and the
    orchestrator's two assignments land in the entry the store keeps. *)
Lemma hit_marks_the_stored_object settings request ttl env w m l expiry resp :
  cache_manager w = MemoryBackend m ->
  OrderedDict.lookup (generate_cache_key request) (MemoryCacheBackend._cache m)
  = Some (l, expiry) ->
  (now_get env <= expiry)%Q ->
  heap w !! l = Some resp ->
  (process_proxy_request settings request ttl env w).2 = inr l
  /\ stored_response (generate_cache_key request)
       (process_proxy_request settings request ttl env w).1
     = Some (ProxyResponse.set_cache_key (generate_cache_key request)
               (ProxyResponse.set_from_cache true resp)).
Proof.
  unfold process_proxy_request. generalize (generate_cache_key request). intros key.
  intros Hm Hk Hfresh Hl.
  unfold bind, modify, ret, Manager.get. cbn [cache_manager with_stats].
  rewrite Hm. unfold MemoryCacheBackend.get. rewrite Hk, (proj2 (Qgtb_false _ _) Hfresh).
  cbn [fst snd]. split; [done|].
  unfold stored_response, with_heap, with_manager, with_stats, MemoryCacheBackend.with_cache.
  cbn [cache_manager heap MemoryCacheBackend._cache].
  unfold OrderedDict.move_to_end. rewrite ?Hk.
  rewrite lookup_app_present by apply lookup_delitem.
  unfold Heap.setattr. rewrite !list_lookup_alter, !decide_True by done. by rewrite Hl.
Qed.

(** C2 fails on the memory backend.  On a process started with the memory
    backend, a first request is a miss and stores the response with
    [from_cache] false; the same request again is a hit, and after it the entry
    the store retains has [from_cache] true: the object returned by [get] is
    the stored one, and the orchestrator writes to it.  On the Redis backend,
    which stores a pickled copy, the same two requests leave [from_cache] false
    in the store. *)
Theorem C2_hit_sets_from_cache_on_the_stored_entry :
  let key := generate_cache_key Example.request in
  let first := process_proxy_request Example.memory_settings Example.request None
                 (Example.env 10) Example.memory_process in
  let second := process_proxy_request Example.memory_settings Example.request None
                  (Example.env 20) first.1 in
  let first_r := process_proxy_request Example.redis_settings Example.request None
                   (Example.env 10) (Example.redis_process []) in
  let second_r := process_proxy_request Example.redis_settings Example.request None
                    (Example.env 20) first_r.1 in
  (Example.start Example.memory_settings [] = inr Example.memory_process
   /\ first.2 = inr 0%nat
   /\ misses (cache_stats first.1) = 1
   /\ ProxyResponse.from_cache <$> stored_response key first.1 = Some false
   /\ second.2 = inr 0%nat
   /\ hits (cache_stats second.1) = 1
   /\ ProxyResponse.from_cache <$> stored_response key second.1 = Some true)
  /\ (Example.start Example.redis_settings [] = inr (Example.redis_process [])
      /\ hits (cache_stats second_r.1) = 1
      /\ ProxyResponse.from_cache <$> (heap second_r.1 !! 1%nat) = Some true
      /\ ProxyResponse.from_cache <$> stored_response key second_r.1 = Some false).
Proof. by vm_compute. Qed.

(** C8 fails at an override of 0.  [ttl or settings.cache_ttl] takes the
    default for [None] and for 0 alike, and the override itself for any other
    integer; so a request with the override 0 is processed exactly as a request
    without override: on the memory backend with the default 300, written at
    time 11, the entry expires at 311 and not at 11, whereas the override 7
    gives 18. *)
Theorem C8_zero_ttl_override_is_replaced_by_the_default :
  (forall default, ttl_or (Some 0) default = default)
  /\ (forall default, ttl_or None default = default)
  /\ (forall n default, n <> 0 -> ttl_or (Some n) default = n)
  /\ (forall settings request env w,
        process_proxy_request settings request (Some 0) env w
        = process_proxy_request settings request None env w)
  /\ stored_expiry (generate_cache_key Example.request)
       (process_proxy_request Example.memory_settings Example.request (Some 0)
          (Example.env 10) Example.memory_process).1 = Some 311%Q
  /\ stored_expiry (generate_cache_key Example.request)
       (process_proxy_request Example.memory_settings Example.request (Some 7)
          (Example.env 10) Example.memory_process).1 = Some 18%Q.
Proof.
  split_and!; try done.
  intros n default Hn. by destruct n.
Qed.

(** ** The counters *)

Lemma Manager_get_stats key now w :
  cache_stats (Manager.get key now w).1 = cache_stats w.
Proof.
  unfold Manager.get. destruct (cache_manager w) as [m|b].
  - by destruct (MemoryCacheBackend.get key now m).
  - destruct (RedisCacheBackend.get key now b (redis w)) as [[b' sv'] [e|[v|]]]; done.
Qed.

Lemma Manager_set_stats key l ttl now w :
  cache_stats (Manager.set key l ttl now w).1 = cache_stats w.
Proof.
  unfold Manager.set. destruct (cache_manager w) as [m|b].
  - by destruct (MemoryCacheBackend.set key l (Some ttl) now m).
  - by destruct (RedisCacheBackend.set _ _ _ _ _ _) as [[b' sv'] r].
Qed.

(** One request moves the counters as [count_request] says: a hit when a
    cached object is returned, a miss when the origin is asked (whatever comes
    of the fetch and of the cache write); when the cache read itself raises,
    the request is counted and is neither a hit nor a miss. *)
Lemma process_proxy_request_counts settings request ttl env w :
  let out := process_proxy_request settings request ttl env w in
  cache_stats out.1 = count_request (cache_stats w) Hit
  \/ cache_stats out.1 = count_request (cache_stats w) Miss
  \/ (cache_stats out.1 = incr_total (cache_stats w) /\ exists e, out.2 = inl e).
Proof.
  unfold process_proxy_request. generalize (generate_cache_key request). intros key.
  unfold bind, modify, ret, gets. cbn [fst snd].
  pose proof (Manager_get_stats key (now_get env) (with_stats incr_total w)) as Hg.
  destruct (Manager.get key (now_get env) (with_stats incr_total w)) as [w1 [e|[l|]]];
    cbn [fst snd] in *.
  - right. right. split; [done | by exists e].
  - left. cbn. by rewrite Hg.
  - right. left. unfold make_http_request.
    destruct (origin env) as [e|[[status content] headers]].
    + cbn. by rewrite Hg.
    + unfold new_object, Heap.alloc. simpl. rewrite setattr_new, deref_new. simpl.
      destruct (is_cacheable_response status headers); [|cbn; by rewrite Hg].
      match goal with
      | |- context [Manager.set ?k ?l ?t ?n ?w2] =>
          pose proof (Manager_set_stats k l t n w2) as Hs;
          destruct (Manager.set k l t n w2) as [w3 [e|[]]]
      end; cbn in *; by rewrite Hs, Hg.
Qed.

(** ** Known digests and renderings *)

(** The MD5 test suite of RFC 1321. *)
Example md5_test_suite :
  MD5.hexdigest "" = "d41d8cd98f00b204e9800998ecf8427e"
  /\ MD5.hexdigest "a" = "0cc175b9c0f1b6a831c399e269772661"
  /\ MD5.hexdigest "abc" = "900150983cd24fb0d6963f7d28e17f72"
  /\ MD5.hexdigest "message digest" = "f96b697d7cb7938d525a2f31aaf161d0"
  /\ MD5.hexdigest "abcdefghijklmnopqrstuvwxyz" = "c3fcd3d76192e4007dfb496cca67e13b"
  /\ MD5.hexdigest "ABCDEFGHIJKLMNOPQRSTUVWXYZabcdefghijklmnopqrstuvwxyz0123456789"
     = "d174ab98d277d9f5a5611c2c9f419d9f"
  /\ MD5.hexdigest
       "12345678901234567890123456789012345678901234567890123456789012345678901234567890"
     = "57edf4a22be3c955ac49da2e2107b67a".
Proof. by vm_compute. Qed.

Example key_string_example :
  key_string Example.request
  = ("{" ++ Json.encode_str "body" ++ ": null, " ++ Json.encode_str "method" ++ ": "
         ++ Json.encode_str "GET" ++ ", " ++ Json.encode_str "params" ++ ": {}, "
         ++ Json.encode_str "url" ++ ": " ++ Json.encode_str "https://example.com/a" ++ "}")%string.
Proof. by vm_compute. Qed.

Example dumps_example :
  Json.dumps (JDict [("b", JList [JInt 1; JInt (-2); JBool true; JNull; JStr "a\b"]);
                     ("a", JDict [("z", JInt 0); ("y", JDict [])])])
  = ("{" ++ Json.encode_str "a" ++ ": {" ++ Json.encode_str "y" ++ ": {}, "
         ++ Json.encode_str "z" ++ ": 0}, " ++ Json.encode_str "b"
         ++ ": [1, -2, true, null, " ++ Json.dquote ++ "a\\b" ++ Json.dquote ++ "]}")%string.
Proof. by vm_compute. Qed.

(** * Further properties *)

(** ** The memory backend: writes, reads, deletions *)

Section ordered_dict_more.
Context {X : Type}.
Implicit Types (d : list (string * X)) (k : string) (x : X).

Lemma lookup_snoc_ne k k' x d :
  k <> k' -> OrderedDict.lookup k (d ++ [(k', x)]) = OrderedDict.lookup k d.
Proof.
  intros Hne. induction d as [|[k'' x''] d IH]; simpl.
  - by rewrite decide_False.
  - by destruct (decide (k = k'')).
Qed.

Lemma lookup_snoc k x d :
  OrderedDict.lookup k d = None -> OrderedDict.lookup k (d ++ [(k, x)]) = Some x.
Proof. intros H. by apply lookup_app_present. Qed.

Lemma lookup_setitem_ne k k' x d :
  k <> k' -> OrderedDict.lookup k (OrderedDict.setitem k' x d) = OrderedDict.lookup k d.
Proof.
  intros Hne. induction d as [|[k'' x''] d IH]; simpl.
  - by rewrite decide_False.
  - destruct (decide (k' = k'')) as [->|Hne']; simpl.
    + by rewrite !decide_False.
    + by destruct (decide (k = k'')).
Qed.

Lemma keys_snoc k x d : OrderedDict.keys (d ++ [(k, x)]) = OrderedDict.keys d ++ [k].
Proof. unfold OrderedDict.keys. by rewrite fmap_app. Qed.

Lemma not_in_keys_lookup k d : k ∉ OrderedDict.keys d <-> OrderedDict.lookup k d = None.
Proof.
  unfold OrderedDict.keys. induction d as [|[k' x'] d IH]; simpl.
  - split; [done | intros _; apply not_elem_of_nil].
  - rewrite not_elem_of_cons, IH. destruct (decide (k = k')); naive_solver.
Qed.
End ordered_dict_more.

Section memory_backend_more.
Context {V : Type}.
Implicit Types (s : MemoryCacheBackend.t V) (k : string) (v : V) (now : Q).

(** What [set] leaves in the store when it returns: the new entry is there,
    with the expiry computed from the clock reading. *)
Lemma set_lookup k v ttl now s s' :
  MemoryCacheBackend.set k v ttl now s = inr s' ->
  OrderedDict.lookup k (MemoryCacheBackend._cache s')
  = Some (v, (now + inject_Z (default (MemoryCacheBackend.default_ttl s) ttl))%Q)
  /\ MemoryCacheBackend.max_size s' = MemoryCacheBackend.max_size s
  /\ MemoryCacheBackend.default_ttl s' = MemoryCacheBackend.default_ttl s.
Proof.
  unfold MemoryCacheBackend.set.
  destruct (if Z.of_nat _ >=? _ then _ else _) as [e|c2]; [done|].
  intros [= <-]. simpl. rewrite lookup_setitem. by destruct ttl.
Qed.

(** With room for one entry, [set] does not raise. *)
Lemma set_succeeds k v ttl now s :
  1 <= MemoryCacheBackend.max_size s ->
  exists s', MemoryCacheBackend.set k v ttl now s = inr s'.
Proof.
  intros Hmax. unfold MemoryCacheBackend.set.
  set (c1 := if OrderedDict.mem k _ then _ else _).
  destruct (Z.geb_spec (Z.of_nat (length c1)) (MemoryCacheBackend.max_size s)) as [Hge|Hlt];
    [|by eexists].
  destruct c1; simpl in *; [lia | by eexists].
Qed.

Lemma get_fresh k v expiry now s :
  OrderedDict.lookup k (MemoryCacheBackend._cache s) = Some (v, expiry) ->
  (now <= expiry)%Q ->
  MemoryCacheBackend.get k now s
  = (Some v, MemoryCacheBackend.with_cache
               (OrderedDict.delitem k (MemoryCacheBackend._cache s) ++ [(k, (v, expiry))]) s).
Proof.
  intros Hk Hfresh. unfold MemoryCacheBackend.get, OrderedDict.move_to_end.
  by rewrite Hk, (proj2 (Qgtb_false _ _) Hfresh).
Qed.

Lemma get_expired k v expiry now s :
  OrderedDict.lookup k (MemoryCacheBackend._cache s) = Some (v, expiry) ->
  (expiry < now)%Q ->
  MemoryCacheBackend.get k now s = (None, MemoryCacheBackend.delete k s).
Proof.
  intros Hk Hexp. unfold MemoryCacheBackend.get.
  by rewrite Hk, (proj2 (Qgtb_true _ _) Hexp).
Qed.

(** X1: after a [set] that returned, [get] of the key gives the value back at
    any clock reading up to the expiry (the reading of the write plus the TTL,
    the backend's default when none is given), and the entry stays with the
    same expiry: a read does not extend the life of an entry.  At any later
    reading [get] gives [None] and the entry is gone. *)
Theorem X1_set_then_get_until_expiry k v ttl now s s' :
  MemoryCacheBackend.set k v ttl now s = inr s' ->
  let expiry := (now + inject_Z (default (MemoryCacheBackend.default_ttl s) ttl))%Q in
  forall t,
    ((t <= expiry)%Q ->
     exists s'', MemoryCacheBackend.get k t s' = (Some v, s'')
                 /\ OrderedDict.lookup k (MemoryCacheBackend._cache s'') = Some (v, expiry)
                 /\ last (OrderedDict.keys (MemoryCacheBackend._cache s'')) = Some k)
    /\ ((expiry < t)%Q ->
        exists s'', MemoryCacheBackend.get k t s' = (None, s'')
                    /\ OrderedDict.lookup k (MemoryCacheBackend._cache s'') = None).
Proof.
  intros Hset expiry t. destruct (set_lookup _ _ _ _ _ _ Hset) as (Hk & _ & _).
  fold expiry in Hk. split.
  - intros Hfresh. eexists. split; [by apply get_fresh|]. simpl. split.
    + apply lookup_snoc, lookup_delitem.
    + rewrite keys_snoc. apply last_snoc.
  - intros Hexp. eexists. split; [by eapply get_expired|].
    rewrite delete_cache. apply lookup_delitem.
Qed.
End memory_backend_more.

(** X1 on an empty store of capacity 2 with default TTL 300: an entry written
    at time 10 without TTL is read at 310 and is gone at 311. *)
Lemma X1_set_then_get_until_expiry_witness :
  exists s',
    MemoryCacheBackend.set "k" "V" None 10 (MemoryCacheBackend.init 2 300) = inr s'
    /\ (MemoryCacheBackend.get "k" 310 s').1 = Some "V"
    /\ (MemoryCacheBackend.get "k" 311 s').1 = None.
Proof.
  destruct (set_succeeds "k" "V" None 10%Q (MemoryCacheBackend.init 2 300)) as [s' Hs'];
    [by vm_compute|].
  exists s'. split; [exact Hs'|].
  pose proof (X1_set_then_get_until_expiry "k" "V" None 10%Q _ _ Hs') as H. simpl in H.
  split.
  - destruct (proj1 (H 310%Q)) as (s'' & -> & _); [by vm_compute | done].
  - destruct (proj2 (H 311%Q)) as (s'' & -> & _); [by vm_compute | done].
Defined.

Section memory_backend_writes.
Context {V : Type}.
Implicit Types (s : MemoryCacheBackend.t V) (k : string) (v : V) (now : Q).

Lemma set_present k v ttl now s :
  is_Some (OrderedDict.lookup k (MemoryCacheBackend._cache s)) ->
  within_bound s ->
  MemoryCacheBackend.set k v ttl now s
  = inr (MemoryCacheBackend.with_cache
           (OrderedDict.delitem k (MemoryCacheBackend._cache s)
              ++ [(k, (v, (now + inject_Z (default (MemoryCacheBackend.default_ttl s) ttl))%Q))])
           s).
Proof.
  intros Hk Hb. unfold MemoryCacheBackend.set, within_bound in *.
  rewrite (proj2 (mem_true _ _) Hk).
  pose proof (length_delitem_present k _ Hk) as Hlt.
  destruct (Z.geb_spec (Z.of_nat (length (OrderedDict.delitem k (MemoryCacheBackend._cache s))))
              (MemoryCacheBackend.max_size s)) as [?|_]; [lia|].
  rewrite setitem_absent by apply lookup_delitem. by destruct ttl.
Qed.

Lemma set_absent_room k v ttl now s :
  OrderedDict.lookup k (MemoryCacheBackend._cache s) = None ->
  Z.of_nat (length (MemoryCacheBackend._cache s)) < MemoryCacheBackend.max_size s ->
  MemoryCacheBackend.set k v ttl now s
  = inr (MemoryCacheBackend.with_cache
           (MemoryCacheBackend._cache s
              ++ [(k, (v, (now + inject_Z (default (MemoryCacheBackend.default_ttl s) ttl))%Q))])
           s).
Proof.
  intros Hk Hroom. unfold MemoryCacheBackend.set.
  rewrite (proj2 (mem_false _ _) Hk).
  destruct (Z.geb_spec (Z.of_nat (length (MemoryCacheBackend._cache s)))
              (MemoryCacheBackend.max_size s)) as [?|_]; [lia|].
  rewrite setitem_absent by done. by destruct ttl.
Qed.

(** X2: in a store within its bound, a [set] evicts nothing unless the key is
    new and the store is full.  Writing a key that is present drops its old
    entry and puts the new one last (most recently used); writing a new key
    into a store with room puts it last; in both cases every other key keeps
    its entry and the other keys keep their order. *)
Theorem X2_set_evicts_only_when_new_and_full k v ttl now s :
  within_bound s ->
  is_Some (OrderedDict.lookup k (MemoryCacheBackend._cache s))
  \/ Z.of_nat (length (MemoryCacheBackend._cache s)) < MemoryCacheBackend.max_size s ->
  exists s',
    MemoryCacheBackend.set k v ttl now s = inr s'
    /\ MemoryCacheBackend._cache s'
       = OrderedDict.delitem k (MemoryCacheBackend._cache s)
           ++ [(k, (v, (now + inject_Z (default (MemoryCacheBackend.default_ttl s) ttl))%Q))]
    /\ (forall k', k' <> k ->
          OrderedDict.lookup k' (MemoryCacheBackend._cache s')
          = OrderedDict.lookup k' (MemoryCacheBackend._cache s)).
Proof.
  intros Hb Hcase.
  assert (MemoryCacheBackend.set k v ttl now s
          = inr (MemoryCacheBackend.with_cache
                   (OrderedDict.delitem k (MemoryCacheBackend._cache s)
                      ++ [(k, (v, (now + inject_Z
                                     (default (MemoryCacheBackend.default_ttl s) ttl))%Q))])
                   s)) as Hset.
  { destruct (OrderedDict.lookup k (MemoryCacheBackend._cache s)) as [x|] eqn:Hk.
    - apply set_present; [by rewrite Hk | done].
    - destruct Hcase as [[? ?]|Hroom]; [done|].
      rewrite delitem_absent by done. by apply set_absent_room. }
  eexists. split; [exact Hset|]. simpl. split; [done|].
  intros k' Hne. by rewrite lookup_snoc_ne, lookup_delitem_ne.
Qed.

(** X3: [delete] removes the entry of its key and nothing else: the key is
    absent afterwards ([get] gives [None], [exists] gives [False]), every other
    key keeps its entry, deleting again changes nothing, and deleting an absent
    key leaves the store as it was. *)
Theorem X3_delete_removes_exactly_the_key k s :
  let s' := MemoryCacheBackend.delete k s in
  OrderedDict.lookup k (MemoryCacheBackend._cache s') = None
  /\ (forall k', k' <> k ->
        OrderedDict.lookup k' (MemoryCacheBackend._cache s')
        = OrderedDict.lookup k' (MemoryCacheBackend._cache s))
  /\ (forall now, MemoryCacheBackend.get k now s' = (None, s')
                  /\ MemoryCacheBackend.exists_ k now s' = (false, s'))
  /\ MemoryCacheBackend.delete k s' = s'
  /\ (OrderedDict.lookup k (MemoryCacheBackend._cache s) = None -> s' = s).
Proof.
  intros s'.
  assert (OrderedDict.lookup k (MemoryCacheBackend._cache s') = None) as Hgone.
  { subst s'. rewrite delete_cache. apply lookup_delitem. }
  split_and!.
  - exact Hgone.
  - intros k' Hne. subst s'. rewrite delete_cache. by apply lookup_delitem_ne.
  - intros now. unfold MemoryCacheBackend.get, MemoryCacheBackend.exists_. by rewrite Hgone.
  - unfold MemoryCacheBackend.delete at 1. by rewrite (proj2 (mem_false _ _) Hgone).
  - intros Hk. subst s'. unfold MemoryCacheBackend.delete.
    by rewrite (proj2 (mem_false _ _) Hk).
Qed.

(** X4: [exists] answers [True] exactly when [get] would return a value, and
    then leaves the store untouched, whereas [get] moves the key to the end of
    the access order; when it answers [False] it leaves the store as [get]
    does (an expired entry is removed by either). *)
Theorem X4_exists_agrees_with_get_without_touching k now s :
  ((MemoryCacheBackend.exists_ k now s).1 = true
   <-> is_Some (MemoryCacheBackend.get k now s).1)
  /\ ((MemoryCacheBackend.exists_ k now s).1 = true ->
      (MemoryCacheBackend.exists_ k now s).2 = s
      /\ last (OrderedDict.keys (MemoryCacheBackend._cache (MemoryCacheBackend.get k now s).2))
         = Some k)
  /\ ((MemoryCacheBackend.exists_ k now s).1 = false ->
      (MemoryCacheBackend.exists_ k now s).2 = (MemoryCacheBackend.get k now s).2).
Proof.
  unfold MemoryCacheBackend.exists_, MemoryCacheBackend.get, OrderedDict.move_to_end.
  destruct (OrderedDict.lookup k (MemoryCacheBackend._cache s)) as [[data expiry]|] eqn:Hk.
  - destruct (Qgtb now expiry); simpl.
    + split_and!; [|done|done]. split; [done | by intros [? ?]].
    + split_and!; [|split; [done|]|done].
      * split; [by eexists | done].
      * rewrite keys_snoc. apply last_snoc.
  - simpl. split_and!; [|done|done]. split; [done | by intros [? ?]].
Qed.

(** X7: a read protects an entry from the next eviction.  In a full store with
    pairwise distinct keys whose oldest entry is [k], still fresh, a [get k]
    followed by the [set] of a new key evicts the second-oldest entry and keeps
    [k]. *)
Theorem X7_read_protects_from_eviction k v expiry k2 x2 rest knew vnew ttl now now' s :
  MemoryCacheBackend._cache s = (k, (v, expiry)) :: (k2, x2) :: rest ->
  NoDup (OrderedDict.keys (MemoryCacheBackend._cache s)) ->
  OrderedDict.lookup knew (MemoryCacheBackend._cache s) = None ->
  Z.of_nat (length (MemoryCacheBackend._cache s)) = MemoryCacheBackend.max_size s ->
  (now <= expiry)%Q ->
  exists s1 s2,
    MemoryCacheBackend.get k now s = (Some v, s1)
    /\ MemoryCacheBackend.set knew vnew ttl now' s1 = inr s2
    /\ MemoryCacheBackend._cache s2
       = rest ++ [(k, (v, expiry));
                  (knew, (vnew, (now' + inject_Z
                                   (default (MemoryCacheBackend.default_ttl s) ttl))%Q))]
    /\ OrderedDict.lookup k (MemoryCacheBackend._cache s2) = Some (v, expiry)
    /\ OrderedDict.lookup k2 (MemoryCacheBackend._cache s2) = None.
Proof.
  intros Hc Hnd Hnew Hfull Hfresh.
  assert (OrderedDict.lookup k (MemoryCacheBackend._cache s) = Some (v, expiry)) as Hk.
  { rewrite Hc. simpl. by rewrite decide_True. }
  rewrite Hc in Hnd, Hnew, Hfull. unfold OrderedDict.keys in Hnd. simpl in Hnd, Hnew, Hfull.
  apply NoDup_cons in Hnd as [Hk1 Hnd]. apply NoDup_cons in Hnd as [Hk2 Hnd].
  apply not_elem_of_cons in Hk1 as [Hkk2 Hkrest].
  destruct (decide (knew = k)) as [->|Hnk]; [done|].
  destruct (decide (knew = k2)) as [->|Hnk2]; [done|].
  assert (OrderedDict.delitem k (MemoryCacheBackend._cache s) = (k2, x2) :: rest) as Hdel.
  { rewrite Hc, delitem_cons, decide_True by done.
    rewrite delitem_cons, decide_False by auto. f_equal.
    apply delitem_absent. by apply not_in_keys_lookup. }
  eexists _, _. split; [by apply get_fresh|]. rewrite Hdel.
  split.
  - rewrite set_evicts_oldest; simpl.
    + reflexivity.
    + rewrite decide_False by auto. rewrite lookup_snoc_ne by done. exact Hnew.
    + rewrite length_app. simpl. lia.
    + done.
  - simpl. rewrite <- !app_assoc. simpl. split; [by destruct ttl|].
    rewrite cons_middle, app_assoc. split.
    + rewrite lookup_snoc_ne by auto.
      apply lookup_snoc. by apply not_in_keys_lookup.
    + assert (OrderedDict.lookup k2 rest = None) as Hr by by apply not_in_keys_lookup.
      rewrite lookup_snoc_ne by auto.
      by rewrite lookup_snoc_ne by auto.
Qed.

Lemma set_empty_no_capacity k v ttl now s :
  MemoryCacheBackend._cache s = [] ->
  MemoryCacheBackend.max_size s <= 0 ->
  MemoryCacheBackend.set k v ttl now s = inl KeyError.
Proof.
  intros Hc Hm. unfold MemoryCacheBackend.set. rewrite Hc.
  change (OrderedDict.mem k []) with false. cbn [length].
  destruct (Z.geb_spec (Z.of_nat 0) (MemoryCacheBackend.max_size s)) as [_|?]; [done | lia].
Qed.

(** X5: a memory backend built with [max_size <= 0] never holds an entry:
    in every state it reaches, the store is empty, every [get] gives [None],
    and every [set] raises [KeyError] (the eviction pops from the empty
    dictionary). *)
Theorem X5_no_capacity_every_set_raises (max_size default_ttl : Z)
    (ops : list (Trace.op V)) s :
  max_size <= 0 ->
  Trace.run ops (MemoryCacheBackend.init max_size default_ttl) = inr s ->
  MemoryCacheBackend._cache s = []
  /\ (forall k v ttl now, MemoryCacheBackend.set k v ttl now s = inl KeyError)
  /\ (forall k now, MemoryCacheBackend.get k now s = (None, s)).
Proof.
  intros Hmax Hrun.
  assert (MemoryCacheBackend._cache s = [] /\ MemoryCacheBackend.max_size s <= 0) as [Hc Hm].
  { revert Hrun.
    assert (MemoryCacheBackend._cache (MemoryCacheBackend.init (V:=V) max_size default_ttl) = []
            /\ MemoryCacheBackend.max_size
                 (MemoryCacheBackend.init (V:=V) max_size default_ttl) <= 0) as H0 by done.
    revert H0. generalize (MemoryCacheBackend.init (V:=V) max_size default_ttl).
    induction ops as [|o ops IH]; intros s0 [Hc0 Hm0] Hrun; simpl in Hrun.
    - by injection Hrun as <-.
    - destruct (Trace.step o s0) as [e|s1] eqn:Es; [done|].
      apply (IH s1); [|done].
      destruct o as [k now|k v ttl now|k|k now]; simpl in Es.
      + injection Es as <-. unfold MemoryCacheBackend.get. by rewrite Hc0.
      + by rewrite set_empty_no_capacity in Es.
      + injection Es as <-. unfold MemoryCacheBackend.delete. by rewrite Hc0.
      + injection Es as <-. unfold MemoryCacheBackend.exists_. by rewrite Hc0. }
  split_and!; [done | |].
  - intros k v ttl now. by apply set_empty_no_capacity.
  - intros k now. unfold MemoryCacheBackend.get. by rewrite Hc.
Qed.
End memory_backend_writes.

(** X2 on a full store of two entries: writing [a] again keeps [b] and puts
    the new [a] last. *)
Lemma X2_set_evicts_only_when_new_and_full_witness :
  let s := MemoryCacheBackend.with_cache [("a", ("A", 5%Q)); ("b", ("B", 20%Q))]
             (MemoryCacheBackend.init 2 300) in
  exists s',
    MemoryCacheBackend.set "a" "A2" (Some 7) 10 s = inr s'
    /\ MemoryCacheBackend._cache s'
       = OrderedDict.delitem "a" (MemoryCacheBackend._cache s)
           ++ [("a", ("A2", (10 + inject_Z 7)%Q))]
    /\ (forall k', k' <> "a" ->
          OrderedDict.lookup k' (MemoryCacheBackend._cache s')
          = OrderedDict.lookup k' (MemoryCacheBackend._cache s)).
Proof.
  intros s.
  apply (X2_set_evicts_only_when_new_and_full "a" "A2" (Some 7) 10%Q s).
  - unfold within_bound. simpl. lia.
  - left. by eexists.
Defined.

(** X5 on a backend of capacity 0 after a read, a deletion and an existence
    check. *)
Lemma X5_no_capacity_every_set_raises_witness :
  MemoryCacheBackend.set "a" "A" (Some 60) 5 (MemoryCacheBackend.init 0 300) = inl KeyError.
Proof.
  apply (X5_no_capacity_every_set_raises 0 300
           [Trace.OpGet "a" 0; Trace.OpDelete "a"; Trace.OpExists "a" 1]
           (MemoryCacheBackend.init 0 300)).
  - lia.
  - reflexivity.
Defined.

(** X7 with capacity 2: [a] is the oldest entry, is read, and the write of
    [c] evicts [b]. *)
Lemma X7_read_protects_from_eviction_witness :
  let s := MemoryCacheBackend.with_cache [("a", ("A", 300%Q)); ("b", ("B", 301%Q))]
             (MemoryCacheBackend.init 2 300) in
  exists s1 s2,
    MemoryCacheBackend.get "a" 2 s = (Some "A", s1)
    /\ MemoryCacheBackend.set "c" "C" None 3 s1 = inr s2
    /\ MemoryCacheBackend._cache s2
       = [] ++ [("a", ("A", 300%Q)); ("c", ("C", (3 + inject_Z 300)%Q))]
    /\ OrderedDict.lookup "a" (MemoryCacheBackend._cache s2) = Some ("A", 300%Q)
    /\ OrderedDict.lookup "b" (MemoryCacheBackend._cache s2) = None.
Proof.
  intros s.
  apply (X7_read_protects_from_eviction "a" "A" 300%Q "b" ("B", 301%Q) [] "c" "C" None
           2%Q 3%Q s).
  - reflexivity.
  - unfold OrderedDict.keys. simpl. repeat (constructor; [set_solver|]). constructor.
  - reflexivity.
  - reflexivity.
  - by vm_compute.
Defined.

(** ** The cache-aside protocol: what a request leaves behind *)

Lemma Manager_get_memory key now w m :
  cache_manager w = MemoryBackend m ->
  Manager.get key now w
  = (with_manager (MemoryBackend (MemoryCacheBackend.get key now m).2) w,
     inr (MemoryCacheBackend.get key now m).1).
Proof.
  intros Hm. unfold Manager.get. rewrite Hm.
  by destruct (MemoryCacheBackend.get key now m).
Qed.

Lemma Manager_set_memory key l ttl now w m :
  cache_manager w = MemoryBackend m ->
  Manager.set key l ttl now w
  = match MemoryCacheBackend.set key l (Some ttl) now m with
    | inl e => (w, inl e)
    | inr m' => (with_manager (MemoryBackend m') w, inr tt)
    end.
Proof. intros Hm. unfold Manager.set. by rewrite Hm. Qed.

(** A lookup that finds nothing on a memory backend leaves the key absent. *)
Lemma get_none_absent {V} key now (m : MemoryCacheBackend.t V) :
  (MemoryCacheBackend.get key now m).1 = None ->
  OrderedDict.lookup key (MemoryCacheBackend._cache (MemoryCacheBackend.get key now m).2) = None
  /\ MemoryCacheBackend.max_size (MemoryCacheBackend.get key now m).2
     = MemoryCacheBackend.max_size m.
Proof.
  rewrite get_max_size. unfold MemoryCacheBackend.get.
  destruct (OrderedDict.lookup key (MemoryCacheBackend._cache m)) as [[data expiry]|] eqn:Hk.
  - destruct (Qgtb now expiry); [|done]. simpl. intros _.
    split; [|done]. rewrite delete_cache. apply lookup_delitem.
  - done.
Qed.

(** The outcomes of one request, case by case. *)
Lemma process_proxy_request_read_failure settings request ttl env w w1 e :
  Manager.get (generate_cache_key request) (now_get env) (with_stats incr_total w)
  = (w1, inl e) ->
  process_proxy_request settings request ttl env w = (w1, inl e).
Proof.
  intros Hget. unfold process_proxy_request, bind, modify. by rewrite Hget.
Qed.

Lemma process_proxy_request_fetch_failure settings request ttl env w w1 e :
  Manager.get (generate_cache_key request) (now_get env) (with_stats incr_total w)
  = (w1, inr None) ->
  origin env = inl e ->
  process_proxy_request settings request ttl env w = (with_stats incr_misses w1, inl e).
Proof.
  intros Hget Horigin. unfold process_proxy_request, bind, modify. rewrite Hget.
  unfold make_http_request. by rewrite Horigin.
Qed.

Lemma process_proxy_request_not_cacheable settings request ttl env w w1 status content headers :
  Manager.get (generate_cache_key request) (now_get env) (with_stats incr_total w)
  = (w1, inr None) ->
  origin env = inr (status, content, headers) ->
  is_cacheable_response status headers = false ->
  process_proxy_request settings request ttl env w
  = ((fetched (generate_cache_key request) (status, content, headers) w1).2,
     inr (length (heap w1))).
Proof.
  intros Hget Horigin Hc.
  unfold process_proxy_request, bind, modify, gets, ret. rewrite Hget.
  unfold make_http_request. rewrite Horigin. unfold new_object, Heap.alloc. simpl.
  rewrite setattr_new, deref_new. simpl. rewrite Hc.
  unfold fetched, with_heap, with_stats. simpl. by rewrite ?setattr_new.
Qed.

Lemma process_proxy_request_hit settings request ttl env w m l expiry resp :
  cache_manager w = MemoryBackend m ->
  OrderedDict.lookup (generate_cache_key request) (MemoryCacheBackend._cache m)
  = Some (l, expiry) ->
  (now_get env <= expiry)%Q ->
  heap w !! l = Some resp ->
  exists w',
    process_proxy_request settings request ttl env w = (w', inr l)
    /\ heap w' !! l
       = Some (ProxyResponse.set_cache_key (generate_cache_key request)
                 (ProxyResponse.set_from_cache true resp))
    /\ cache_stats w' = count_request (cache_stats w) Hit
    /\ length (heap w') = length (heap w).
Proof.
  unfold process_proxy_request. generalize (generate_cache_key request). intros key.
  intros Hm Hk Hfresh Hl.
  unfold bind, modify, ret, Manager.get. cbn [cache_manager with_stats].
  rewrite Hm. unfold MemoryCacheBackend.get. rewrite Hk, (proj2 (Qgtb_false _ _) Hfresh).
  eexists. split; [reflexivity|].
  unfold with_heap, with_manager, with_stats. cbn [heap cache_stats]. split_and!.
  - unfold Heap.setattr. rewrite !list_lookup_alter, !decide_True by done. by rewrite Hl.
  - done.
  - unfold Heap.setattr. by rewrite !length_alter.
Qed.

(** X6: with a memory backend of capacity 0 or less, a request whose origin
    answers with a cacheable response fails with [KeyError]: the response is
    fetched, the write raises, and the request raises with it.  The miss is
    counted and the backend is left empty, so every such request fails. *)
Theorem X6_no_capacity_fails_cacheable_requests
    settings request ttl env w m status content headers :
  cache_manager w = MemoryBackend m ->
  MemoryCacheBackend._cache m = [] ->
  MemoryCacheBackend.max_size m <= 0 ->
  origin env = inr (status, content, headers) ->
  is_cacheable_response status headers = true ->
  exists w',
    process_proxy_request settings request ttl env w = (w', inl KeyError)
    /\ cache_manager w' = MemoryBackend m
    /\ cache_stats w' = count_request (cache_stats w) Miss.
Proof.
  intros Hm Hc Hmax Horigin Hcacheable.
  assert (Manager.get (generate_cache_key request) (now_get env) (with_stats incr_total w)
          = (with_manager (MemoryBackend m) (with_stats incr_total w), inr None)) as Hget.
  { rewrite (Manager_get_memory _ _ _ m) by done.
    unfold MemoryCacheBackend.get. by rewrite Hc. }
  rewrite (process_proxy_request_miss _ _ _ _ _ _ _ _ _ Hget Horigin Hcacheable).
  unfold fetched. rewrite (Manager_set_memory _ _ _ _ _ m) by done.
  rewrite set_empty_no_capacity by done.
  eexists. split; [reflexivity|]. done.
Qed.

(** X6 on a process started with [MAX_CACHE_SIZE = 0]. *)
Lemma X6_no_capacity_fails_cacheable_requests_witness :
  exists w',
    process_proxy_request Example.memory_settings Example.request None (Example.env 10)
      (Example.process (MemoryBackend (MemoryCacheBackend.init 0 300)) [])
    = (w', inl KeyError)
    /\ cache_manager w' = MemoryBackend (MemoryCacheBackend.init 0 300)
    /\ cache_stats w' = count_request no_requests Miss.
Proof.
  assert (MemoryCacheBackend.max_size (MemoryCacheBackend.init (V:=loc) 0 300) <= 0) as Hmax
    by (simpl; lia).
  exact (X6_no_capacity_fails_cacheable_requests Example.memory_settings Example.request
           None (Example.env 10)
           (Example.process (MemoryBackend (MemoryCacheBackend.init 0 300)) [])
           (MemoryCacheBackend.init 0 300) 200 [] ∅ eq_refl eq_refl Hmax eq_refl eq_refl).
Defined.

(** A cacheable miss on a memory backend with room: the response is stored
    under the key, with the expiry computed at the write. *)
Lemma cacheable_miss_stores settings request ttl env w m status content headers :
  cache_manager w = MemoryBackend m ->
  1 <= MemoryCacheBackend.max_size m ->
  (MemoryCacheBackend.get (generate_cache_key request) (now_get env) m).1 = None ->
  origin env = inr (status, content, headers) ->
  is_cacheable_response status headers = true ->
  exists w2 m2,
    process_proxy_request settings request ttl env w = (w2, inr (length (heap w)))
    /\ cache_manager w2 = MemoryBackend m2
    /\ OrderedDict.lookup (generate_cache_key request) (MemoryCacheBackend._cache m2)
       = Some (length (heap w),
               (now_set env + inject_Z (ttl_or ttl (cache_ttl settings)))%Q)
    /\ heap w2
       = heap w ++ [{| ProxyResponse.status_code := status; ProxyResponse.content := content;
                       ProxyResponse.headers := headers; ProxyResponse.from_cache := false;
                       ProxyResponse.cache_key := Some (generate_cache_key request) |}]
    /\ cache_stats w2 = count_request (cache_stats w) Miss.
Proof.
  intros Hm Hmax Hnone Horigin Hcacheable.
  set (key := generate_cache_key request) in *.
  set (m1 := (MemoryCacheBackend.get key (now_get env) m).2).
  assert (Manager.get key (now_get env) (with_stats incr_total w)
          = (with_manager (MemoryBackend m1) (with_stats incr_total w), inr None)) as Hget.
  { rewrite (Manager_get_memory _ _ _ m) by done. by rewrite Hnone. }
  rewrite (process_proxy_request_miss _ _ _ _ _ _ _ _ _ Hget Horigin Hcacheable).
  fold key. unfold fetched. rewrite (Manager_set_memory _ _ _ _ _ m1) by done.
  destruct (set_succeeds key (length (heap w)) (Some (ttl_or ttl (cache_ttl settings)))
              (now_set env) m1) as [m2 Hset].
  { subst m1. by rewrite get_max_size. }
  cbn [heap with_manager with_stats] in *. rewrite Hset.
  exists (with_manager (MemoryBackend m2)
            (with_heap (fun h => h ++ [{| ProxyResponse.status_code := status;
                                          ProxyResponse.content := content;
                                          ProxyResponse.headers := headers;
                                          ProxyResponse.from_cache := false;
                                          ProxyResponse.cache_key := Some key |}])
               (with_stats incr_misses
                  (with_manager (MemoryBackend m1) (with_stats incr_total w))))), m2.
  split; [done|]. split; [done|]. split; [|done].
  by destruct (set_lookup _ _ _ _ _ _ Hset) as (-> & _).
Qed.

(** A request whose key has a live entry in the memory store is served the
    stored object, and the entry stays. *)
Lemma hit_on_held_entry settings request ttl env w key l expiry status content headers :
  holds_entry w key l expiry status content headers ->
  generate_cache_key request = key ->
  (now_get env <= expiry)%Q ->
  exists w',
    process_proxy_request settings request ttl env w = (w', inr l)
    /\ heap w' !! l
       = Some {| ProxyResponse.status_code := status; ProxyResponse.content := content;
                 ProxyResponse.headers := headers; ProxyResponse.from_cache := true;
                 ProxyResponse.cache_key := Some key |}
    /\ cache_stats w' = count_request (cache_stats w) Hit
    /\ holds_entry w' key l expiry status content headers.
Proof.
  intros (m & r & Hm & Hk & Hl & Hst & Hco & Hhe) Hkey Hfresh.
  unfold process_proxy_request. rewrite Hkey. clear Hkey request.
  unfold bind, modify, ret.
  rewrite (Manager_get_memory _ _ _ m) by done.
  rewrite (get_fresh key l expiry (now_get env) m Hk Hfresh). cbn [fst snd].
  eexists. split; [reflexivity|].
  unfold with_heap, with_manager, with_stats. cbn [heap cache_stats cache_manager].
  assert (alter (ProxyResponse.set_cache_key key)
            l (alter (ProxyResponse.set_from_cache true) l (heap w)) !! l
          = Some {| ProxyResponse.status_code := status; ProxyResponse.content := content;
                    ProxyResponse.headers := headers; ProxyResponse.from_cache := true;
                    ProxyResponse.cache_key := Some key |}) as Hobj.
  { rewrite !list_lookup_alter, !decide_True by done. rewrite Hl. simpl.
    unfold ProxyResponse.set_cache_key, ProxyResponse.set_from_cache. simpl.
    by rewrite Hst, Hco, Hhe. }
  split; [exact Hobj|]. split; [done|].
  eexists _, _. split; [reflexivity|]. cbn [MemoryCacheBackend._cache MemoryCacheBackend.with_cache].
  split; [apply lookup_snoc, lookup_delitem|].
  split; [exact Hobj|]. done.
Qed.

(** X8: a cached response is served for as long as its entry is held.  On a
    memory backend with room, a miss whose origin response is cacheable
    leaves an entry for the key, holding the new object, with the expiry
    computed at the write.  From then on, in any state whose store still
    holds that entry (it has not been evicted, deleted, cleared or
    overwritten), a request that derives the same key (one that differs only
    in its headers, for one) and is looked up no later than the expiry is a
    hit: it returns that same object with [from_cache] true and the key,
    whatever its own environment would have answered, it is counted as a hit,
    and the entry is still held afterwards. *)
Theorem X8_requests_are_hits_while_the_entry_is_held
    settings request ttl env w m status content headers :
  cache_manager w = MemoryBackend m ->
  1 <= MemoryCacheBackend.max_size m ->
  (MemoryCacheBackend.get (generate_cache_key request) (now_get env) m).1 = None ->
  origin env = inr (status, content, headers) ->
  is_cacheable_response status headers = true ->
  let key := generate_cache_key request in
  let expiry := (now_set env + inject_Z (ttl_or ttl (cache_ttl settings)))%Q in
  exists w2 l,
    process_proxy_request settings request ttl env w = (w2, inr l)
    /\ holds_entry w2 key l expiry status content headers
    /\ forall w' settings' request' ttl' env',
         holds_entry w' key l expiry status content headers ->
         generate_cache_key request' = key ->
         (now_get env' <= expiry)%Q ->
         exists w3,
           process_proxy_request settings' request' ttl' env' w' = (w3, inr l)
           /\ heap w3 !! l
              = Some {| ProxyResponse.status_code := status; ProxyResponse.content := content;
                        ProxyResponse.headers := headers; ProxyResponse.from_cache := true;
                        ProxyResponse.cache_key := Some key |}
           /\ cache_stats w3 = count_request (cache_stats w') Hit
           /\ holds_entry w3 key l expiry status content headers.
Proof.
  intros Hm Hmax Hnone Horigin Hcacheable key expiry.
  destruct (cacheable_miss_stores settings request ttl env w m status content headers)
    as (w2 & m2 & Hrun & Hm2 & Hk & Hheap & _); try done.
  exists w2, (length (heap w)). split; [exact Hrun|]. split.
  - eexists m2, _. split; [exact Hm2|]. split; [exact Hk|].
    split; [rewrite Hheap; by apply list_lookup_middle|]. done.
  - intros w' settings' request' ttl' env' Hheld Hkey Hfresh.
    by apply hit_on_held_entry.
Qed.

(** X8 on a fresh process: the response fetched for a request without headers
    is served twice more, to the same request carrying an [authorization]
    header, although the origin is then unreachable. *)
Lemma X8_requests_are_hits_while_the_entry_is_held_witness :
  let request' :=
    with_headers (Some {[ "authorization" := "Bearer other" ]}) Example.request in
  let env' := {| now_get := 20; origin := inl FetchFailure; now_set := 21 |} in
  exists w2 w3 w4 l,
    process_proxy_request Example.memory_settings Example.request None (Example.env 10)
      Example.memory_process = (w2, inr l)
    /\ process_proxy_request Example.memory_settings request' (Some 5) env' w2 = (w3, inr l)
    /\ process_proxy_request Example.memory_settings request' (Some 5) env' w3 = (w4, inr l)
    /\ ProxyResponse.from_cache <$> (heap w4 !! l) = Some true
    /\ hits (cache_stats w4) = 2.
Proof.
  intros request' env'.
  assert (1 <= MemoryCacheBackend.max_size (MemoryCacheBackend.init (V:=loc) 1000 300))
    as Hmax by (simpl; lia).
  destruct (X8_requests_are_hits_while_the_entry_is_held Example.memory_settings
              Example.request None (Example.env 10) Example.memory_process
              (MemoryCacheBackend.init 1000 300) 200 [] ∅
              eq_refl Hmax eq_refl eq_refl eq_refl) as (w2 & l & Hrun & Hheld & Hlater).
  assert (now_get env' <= now_set (Example.env 10)
                          + inject_Z (ttl_or None (cache_ttl Example.memory_settings)))%Q
    as Hfresh by (by vm_compute).
  destruct (Hlater w2 Example.memory_settings request' (Some 5) env' Hheld eq_refl Hfresh)
    as (w3 & Hrun3 & _ & Hs3 & Hheld3).
  destruct (Hlater w3 Example.memory_settings request' (Some 5) env' Hheld3 eq_refl Hfresh)
    as (w4 & Hrun4 & Hl4 & Hs4 & _).
  exists w2, w3, w4, l.
  split; [exact Hrun|]. split; [exact Hrun3|]. split; [exact Hrun4|].
  split; [by rewrite Hl4|].
  rewrite Hs4, Hs3. simpl.
  assert (hits (cache_stats w2) = 0) as ->; [|done].
  generalize Hrun. clear. intros Hrun.
  assert (w2 = (process_proxy_request Example.memory_settings Example.request None
                  (Example.env 10) Example.memory_process).1) as -> by by rewrite Hrun.
  by vm_compute.
Defined.

(** X9: a response that is not cacheable is returned with [from_cache] false
    and nothing is written: on a memory backend the key is absent afterwards,
    so the next request with this key asks the origin again, whenever it
    comes. *)
Theorem X9_uncacheable_responses_are_fetched_again
    settings request ttl env w m status content headers :
  cache_manager w = MemoryBackend m ->
  (MemoryCacheBackend.get (generate_cache_key request) (now_get env) m).1 = None ->
  origin env = inr (status, content, headers) ->
  is_cacheable_response status headers = false ->
  exists w2 l,
    process_proxy_request settings request ttl env w = (w2, inr l)
    /\ heap w2 !! l
       = Some {| ProxyResponse.status_code := status; ProxyResponse.content := content;
                 ProxyResponse.headers := headers; ProxyResponse.from_cache := false;
                 ProxyResponse.cache_key := Some (generate_cache_key request) |}
    /\ stored_response (generate_cache_key request) w2 = None
    /\ forall request' ttl' env',
         generate_cache_key request' = generate_cache_key request ->
         cache_stats (process_proxy_request settings request' ttl' env' w2).1
         = count_request (cache_stats w2) Miss.
Proof.
  intros Hm Hnone Horigin Hc.
  set (key := generate_cache_key request) in *.
  set (m1 := (MemoryCacheBackend.get key (now_get env) m).2).
  assert (Manager.get key (now_get env) (with_stats incr_total w)
          = (with_manager (MemoryBackend m1) (with_stats incr_total w), inr None)) as Hget.
  { rewrite (Manager_get_memory _ _ _ m) by done. by rewrite Hnone. }
  rewrite (process_proxy_request_not_cacheable _ _ _ _ _ _ _ _ _ Hget Horigin Hc).
  fold key. destruct (get_none_absent key (now_get env) m Hnone) as [Habs _]. fold m1 in Habs.
  eexists _, _. split; [reflexivity|]. unfold fetched. cbn [snd]. split_and!.
  - cbn [heap with_heap with_stats with_manager]. by apply list_lookup_middle.
  - unfold stored_response. cbn [cache_manager with_heap with_stats with_manager].
    by rewrite Habs.
  - intros request' ttl' env' Hkey.
    match goal with |- context [process_proxy_request _ _ _ _ ?x] => set (w2 := x) end.
    assert (cache_manager w2 = MemoryBackend m1) as Hm2 by done.
    assert (Manager.get key (now_get env') (with_stats incr_total w2)
            = (with_manager (MemoryBackend m1) (with_stats incr_total w2), inr None)) as Hget2.
    { rewrite (Manager_get_memory _ _ _ m1) by done.
      unfold MemoryCacheBackend.get. rewrite Habs. by destruct m1. }
    rewrite <- Hkey in Hget2.
    destruct (origin env') as [e|[[status' content'] headers']] eqn:Ho.
    + by rewrite (process_proxy_request_fetch_failure _ _ _ _ _ _ _ Hget2 Ho).
    + destruct (is_cacheable_response status' headers') eqn:Hc'.
      * rewrite (process_proxy_request_miss _ _ _ _ _ _ _ _ _ Hget2 Ho Hc').
        unfold fetched.
        match goal with
        | |- context [Manager.set ?k ?l ?t ?n ?w'] =>
            pose proof (Manager_set_stats k l t n w') as Hs;
            destruct (Manager.set k l t n w') as [w3 [e|[]]]
        end; cbn [fst] in *; by rewrite Hs.
      * by rewrite (process_proxy_request_not_cacheable _ _ _ _ _ _ _ _ _ Hget2 Ho Hc').
Qed.

(** X9 on a fresh process whose origin answers 404. *)
Lemma X9_uncacheable_responses_are_fetched_again_witness :
  let env404 := {| now_get := 10; origin := inr (404, [], ∅); now_set := 11 |} in
  exists w2 l,
    process_proxy_request Example.memory_settings Example.request None env404
      Example.memory_process = (w2, inr l)
    /\ stored_response (generate_cache_key Example.request) w2 = None
    /\ cache_stats (process_proxy_request Example.memory_settings Example.request None
                      (Example.env 12) w2).1
       = count_request (cache_stats w2) Miss.
Proof.
  intros env404.
  destruct (X9_uncacheable_responses_are_fetched_again Example.memory_settings
              Example.request None env404 Example.memory_process
              (MemoryCacheBackend.init 1000 300) 404 [] ∅
              eq_refl eq_refl eq_refl eq_refl) as (w2 & l & Hrun & _ & Hstored & Hnext).
  exists w2, l. split; [exact Hrun|]. split; [exact Hstored|].
  by apply Hnext.
Defined.

(** X10: failures propagate and leave no entry behind.  When the Redis read
    fails, the request raises [StoreUnavailable] at once: it is counted in
    [total_requests] but neither as a hit nor as a miss, and neither the heap
    nor the Redis table changes, whatever the origin would have answered.
    When the lookup finds nothing and the fetch raises, the request raises the
    same exception, counted as a miss, with the heap and the cache as the
    lookup left them. *)
Theorem X10_failures_propagate_and_store_nothing settings request ttl env w :
  (forall b fs,
      cache_manager w = RedisBackend b ->
      Redis.faults (redis w) = true :: fs ->
      exists w',
        process_proxy_request settings request ttl env w = (w', inl StoreUnavailable)
        /\ cache_stats w' = incr_total (cache_stats w)
        /\ heap w' = heap w
        /\ Redis.db (redis w') = Redis.db (redis w)
        /\ Redis.faults (redis w') = fs)
  /\ (forall w1 e,
         Manager.get (generate_cache_key request) (now_get env) (with_stats incr_total w)
         = (w1, inr None) ->
         origin env = inl e ->
         exists w',
           process_proxy_request settings request ttl env w = (w', inl e)
           /\ cache_stats w' = count_request (cache_stats w) Miss
           /\ heap w' = heap w1
           /\ cache_manager w' = cache_manager w1
           /\ redis w' = redis w1).
Proof.
  split.
  - intros b fs Hb Hf.
    assert (exists w1,
               Manager.get (generate_cache_key request) (now_get env) (with_stats incr_total w)
               = (w1, inl StoreUnavailable)
               /\ cache_stats w1 = incr_total (cache_stats w) /\ heap w1 = heap w
               /\ Redis.db (redis w1) = Redis.db (redis w) /\ Redis.faults (redis w1) = fs)
      as (w1 & Hget & Hrest).
    { unfold Manager.get. cbn [cache_manager redis with_stats]. rewrite Hb.
      unfold RedisCacheBackend.get, Redis.GET, Redis.command. rewrite Hf.
      eexists. split; [reflexivity|]. done. }
    exists w1. split; [|exact Hrest]. by apply process_proxy_request_read_failure.
  - intros w1 e Hget Horigin.
    exists (with_stats incr_misses w1).
    split; [by apply process_proxy_request_fetch_failure|].
    split_and!; try done. cbn [cache_stats with_stats].
    pose proof (Manager_get_stats (generate_cache_key request) (now_get env)
                  (with_stats incr_total w)) as Hs.
    rewrite Hget in Hs. simpl in Hs. by rewrite Hs.
Qed.

(** X10 on a Redis-backed process whose first command fails, and on a
    memory-backed process whose origin is unreachable. *)
Lemma X10_failures_propagate_and_store_nothing_witness :
  (exists w',
      process_proxy_request Example.redis_settings Example.request None (Example.env 10)
        (Example.redis_process [true]) = (w', inl StoreUnavailable)
      /\ cache_stats w' = incr_total no_requests)
  /\ (exists w',
         process_proxy_request Example.memory_settings Example.request None
           {| now_get := 10; origin := inl FetchFailure; now_set := 11 |}
           Example.memory_process = (w', inl FetchFailure)
         /\ cache_stats w' = count_request no_requests Miss).
Proof.
  split.
  - destruct (proj1 (X10_failures_propagate_and_store_nothing Example.redis_settings
                       Example.request None (Example.env 10) (Example.redis_process [true]))
                (RedisCacheBackend.init "redis://localhost:6379") [] eq_refl eq_refl)
      as (w' & Hrun & Hs & _).
    exists w'. by split.
  - destruct (proj2 (X10_failures_propagate_and_store_nothing Example.memory_settings
                       Example.request None
                       {| now_get := 10; origin := inl FetchFailure; now_set := 11 |}
                       Example.memory_process)
                (with_stats incr_total Example.memory_process) FetchFailure eq_refl eq_refl)
      as (w' & Hrun & Hs & _).
    exists w'. by split.
Defined.

(** ** The counters over a sequence of calls *)

Lemma process_proxy_request_memory settings request ttl env w m :
  cache_manager w = MemoryBackend m ->
  (exists m', cache_manager (process_proxy_request settings request ttl env w).1
              = MemoryBackend m')
  /\ (cache_stats (process_proxy_request settings request ttl env w).1
      = count_request (cache_stats w) Hit
      \/ cache_stats (process_proxy_request settings request ttl env w).1
         = count_request (cache_stats w) Miss).
Proof.
  intros Hm. unfold process_proxy_request. generalize (generate_cache_key request). intros key.
  unfold bind, modify, ret, gets.
  rewrite (Manager_get_memory _ _ _ m) by done.
  destruct (MemoryCacheBackend.get key (now_get env) m) as [[l|] m1]; cbn [fst snd].
  - split; [by eexists | by left].
  - unfold make_http_request.
    destruct (origin env) as [e|[[status content] headers]].
    + split; [by eexists | by right].
    + unfold new_object, Heap.alloc. simpl. rewrite setattr_new, deref_new. simpl.
      destruct (is_cacheable_response status headers); [|split; [by eexists | by right]].
      rewrite (Manager_set_memory _ _ _ _ _ m1) by done.
      destruct (MemoryCacheBackend.set _ _ _ _ m1) as [e|m2];
        (split; [by eexists | by right]).
Qed.

Lemma serve_counters settings calls w :
  let s := cache_stats w in
  let s' := cache_stats (serve settings calls w).1 in
  total_requests s' = total_requests s + Z.of_nat (length calls)
  /\ hits s <= hits s' /\ misses s <= misses s'
  /\ hits s' + misses s' <= hits s + misses s + Z.of_nat (length calls)
  /\ length (serve settings calls w).2 = length calls
  /\ ((exists m, cache_manager w = MemoryBackend m) ->
      hits s' + misses s' = hits s + misses s + Z.of_nat (length calls)).
Proof.
  revert w. induction calls as [|c calls IH]; intros w; cbn [serve].
  - simpl. split_and!; try lia; done.
  - unfold proxy_request.
    pose proof (process_proxy_request_counts settings (call_request c) (call_ttl c)
                  (call_env c) w) as Hc.
    pose proof (process_proxy_request_memory settings (call_request c) (call_ttl c)
                  (call_env c) w) as Hmem.
    destruct (process_proxy_request settings (call_request c) (call_ttl c) (call_env c) w)
      as [w1 r] eqn:E1.
    specialize (IH w1). destruct (serve settings calls w1) as [w2 rs] eqn:E2.
    cbn [fst snd] in *.
    destruct IH as (Ht & Hh & Hmi & Hsum & Hlen & Hmemory).
    assert (total_requests (cache_stats w1) = total_requests (cache_stats w) + 1
            /\ hits (cache_stats w) <= hits (cache_stats w1)
            /\ misses (cache_stats w) <= misses (cache_stats w1)
            /\ hits (cache_stats w1) + misses (cache_stats w1)
               <= hits (cache_stats w) + misses (cache_stats w) + 1) as (H1 & H2 & H3 & H4).
    { destruct Hc as [-> | [-> | [-> _]]]; simpl; lia. }
    rewrite length_cons, Nat2Z.inj_succ. split_and!; try lia.
    + simpl. by rewrite Hlen.
    + intros [m Hm]. destruct (Hmem m Hm) as [Hm1 Hs1].
      specialize (Hmemory Hm1).
      destruct Hs1 as [Hs1 | Hs1]; rewrite Hs1 in Hmemory; simpl in Hmemory; lia.
Qed.

(** X11: the counters after any sequence of calls on a process that starts
    with no request counted: [total_requests] is the number of calls, hits and
    misses together never exceed it and make it up exactly on a memory backend
    (only a failed Redis read is in neither), every call has an outcome, and
    the hit rate that [get_stats] reports lies between 0 and 100. *)
Theorem X11_counters_after_any_sequence_of_calls settings calls w :
  cache_stats w = no_requests ->
  let s' := cache_stats (serve settings calls w).1 in
  total_requests s' = Z.of_nat (length calls)
  /\ 0 <= hits s' /\ 0 <= misses s'
  /\ hits s' + misses s' <= total_requests s'
  /\ ((exists m, cache_manager w = MemoryBackend m) ->
      hits s' + misses s' = total_requests s')
  /\ length (serve settings calls w).2 = length calls
  /\ (0 <= Stats.hit_rate (Stats.get_stats settings s') <= 100)%Q.
Proof.
  intros Hw s'.
  destruct (serve_counters settings calls w) as (Ht & Hh & Hm & Hsum & Hlen & Hmem).
  rewrite Hw in Ht, Hh, Hm, Hsum, Hmem. simpl in Ht, Hh, Hm, Hsum, Hmem. fold s' in Ht, Hh, Hm, Hsum, Hmem.
  refine (conj _ (conj _ (conj _ (conj _ (conj _ (conj _ _)))))); try lia.
  - intros Hmemory. specialize (Hmem Hmemory). lia.
  - apply hit_rate_range. lia.
Qed.

(** X11 on three calls of the example request: a miss and two hits. *)
Lemma X11_counters_after_any_sequence_of_calls_witness :
  let calls := [ {| call_request := Example.request; call_ttl := None;
                    call_env := Example.env 10 |};
                 {| call_request := Example.request; call_ttl := None;
                    call_env := Example.env 20 |};
                 {| call_request := Example.request; call_ttl := Some 5;
                    call_env := Example.env 30 |} ] in
  let s' := cache_stats (serve Example.memory_settings calls Example.memory_process).1 in
  (total_requests s' = 3 /\ hits s' = 2 /\ misses s' = 1)
  /\ hits s' + misses s' = total_requests s'.
Proof.
  intros calls s'. split; [by vm_compute|].
  destruct (X11_counters_after_any_sequence_of_calls Example.memory_settings calls
              Example.memory_process eq_refl) as (_ & _ & _ & _ & Hmem & _).
  apply Hmem. by eexists.
Defined.

(** ** The Redis backend keeps copies *)

Lemma redis_command_db {A} (run : Redis.server -> Redis.server * A) sv :
  (forall sv0, Redis.db (run sv0).1 = Redis.db sv0) ->
  Redis.db (Redis.command run sv).1 = Redis.db sv.
Proof.
  intros Hrun. unfold Redis.command.
  destruct (Redis.faults sv) as [|[] fs]; simpl; [| done |].
  - specialize (Hrun sv). by destruct (run sv).
  - specialize (Hrun {| Redis.db := Redis.db sv; Redis.faults := fs |}).
    by destruct (run _).
Qed.

Lemma Manager_get_redis key now w b :
  cache_manager w = RedisBackend b ->
  (exists b', cache_manager (Manager.get key now w).1 = RedisBackend b')
  /\ Redis.db (redis (Manager.get key now w).1) = Redis.db (redis w).
Proof.
  intros Hb. unfold Manager.get. rewrite Hb. unfold RedisCacheBackend.get.
  pose proof (redis_command_db
                (fun sv => (sv, match Redis.db sv !! key with
                                | Some e => if Redis.live now e then Some e.1 else None
                                | None => None
                                end)) (redis w) (fun _ => eq_refl)) as Hdb.
  unfold Redis.GET.
  destruct (Redis.command _ (redis w)) as [sv' [e|[v|]]]; simpl in *;
    (split; [by eexists | done]).
Qed.

Lemma Manager_set_redis key l ttl now w b :
  cache_manager w = RedisBackend b ->
  (exists b', cache_manager (Manager.set key l ttl now w).1 = RedisBackend b')
  /\ (Redis.db (redis (Manager.set key l ttl now w).1) = Redis.db (redis w)
      \/ Redis.db (redis (Manager.set key l ttl now w).1)
         = <[key := (Heap.deref l (heap w), (now + inject_Z ttl)%Q)]> (Redis.db (redis w))).
Proof.
  intros Hb. unfold Manager.set. rewrite Hb.
  unfold RedisCacheBackend.set, Redis.SETEX, Redis.command.
  destruct (Redis.faults (redis w)) as [|[] fs]; simpl;
    (split; [by eexists | by auto]).
Qed.

Lemma process_proxy_request_redis settings request ttl env w b :
  cache_manager w = RedisBackend b ->
  redis_entries_unmarked w ->
  (exists b', cache_manager (process_proxy_request settings request ttl env w).1
              = RedisBackend b')
  /\ redis_entries_unmarked (process_proxy_request settings request ttl env w).1.
Proof.
  intros Hb Hinv. unfold process_proxy_request.
  generalize (generate_cache_key request). intros key.
  unfold bind, modify, ret, gets.
  destruct (Manager_get_redis key (now_get env) (with_stats incr_total w) b Hb)
    as [[b1 Hb1] Hdb1].
  destruct (Manager.get key (now_get env) (with_stats incr_total w)) as [w1 [e|[l|]]];
    cbn [fst snd] in *.
  - split; [by eexists|]. intros k e' He. rewrite Hdb1 in He. by apply (Hinv k).
  - split; [by eexists|]. intros k e' He. simpl in He.
    rewrite Hdb1 in He. by apply (Hinv k).
  - unfold make_http_request.
    destruct (origin env) as [e|[[status content] headers]].
    + split; [by eexists|]. intros k e' He. simpl in He.
      rewrite Hdb1 in He. by apply (Hinv k).
    + unfold new_object, Heap.alloc. simpl. rewrite setattr_new, deref_new. simpl.
      destruct (is_cacheable_response status headers).
      * match goal with
        | |- context [Manager.set ?k ?l ?t ?n ?x] => set (w2 := x)
        end.
        assert (ProxyResponse.from_cache (Heap.deref (length (heap w1)) (heap w2)) = false)
          as Hnew by (subst w2; simpl; by rewrite ?setattr_new, deref_new).
        assert (Redis.db (redis w2) = Redis.db (redis w1)) as Hdb by done.
        assert (cache_manager w2 = RedisBackend b1) as Hb2' by done.
        clearbody w2.
        destruct (Manager_set_redis key (length (heap w1)) (ttl_or ttl (cache_ttl settings))
                    (now_set env) w2 b1 Hb2') as [[b2 Hb2] Hdb2].
        destruct (Manager.set key (length (heap w1)) (ttl_or ttl (cache_ttl settings))
                    (now_set env) w2) as [w3 [e|[]]]; cbn [fst snd] in *.
        -- split; [by eexists|]. intros k e' He.
           destruct Hdb2 as [Hdb2 | Hdb2]; rewrite Hdb2 in He.
           ++ rewrite Hdb, Hdb1 in He. by apply (Hinv k).
           ++ rewrite lookup_insert in He. case_decide.
              ** by injection He as <-.
              ** rewrite Hdb, Hdb1 in He. by apply (Hinv k).
        -- split; [by eexists|]. intros k e' He.
           destruct Hdb2 as [Hdb2 | Hdb2]; rewrite Hdb2 in He.
           ++ rewrite Hdb, Hdb1 in He. by apply (Hinv k).
           ++ rewrite lookup_insert in He. case_decide.
              ** by injection He as <-.
              ** rewrite Hdb, Hdb1 in He. by apply (Hinv k).
      * split; [by eexists|]. intros k e' He. simpl in He.
        rewrite Hdb1 in He. by apply (Hinv k).
Qed.

(** X12: on the Redis backend the stored entries are never marked as served
    from the cache.  If every value of the Redis table has [from_cache] false,
    this is still so after any sequence of calls, hits included: a hit marks
    the copy that was unpickled, not what the server holds. *)
Theorem X12_redis_entries_never_marked settings calls w b :
  cache_manager w = RedisBackend b ->
  redis_entries_unmarked w ->
  redis_entries_unmarked (serve settings calls w).1.
Proof.
  revert w b. induction calls as [|c calls IH]; intros w b Hb Hinv; cbn [serve]; [done|].
  unfold proxy_request.
  destruct (process_proxy_request_redis settings (call_request c) (call_ttl c) (call_env c)
              w b Hb Hinv) as [[b1 Hb1] Hinv1].
  destruct (process_proxy_request settings (call_request c) (call_ttl c) (call_env c) w)
    as [w1 r].
  specialize (IH w1 b1 Hb1 Hinv1). by destruct (serve settings calls w1).
Qed.

(** X12 on a fresh Redis-backed process after a miss and a hit: the entry under
    the key is there and is not marked. *)
Lemma X12_redis_entries_never_marked_witness :
  let calls := [ {| call_request := Example.request; call_ttl := None;
                    call_env := Example.env 10 |};
                 {| call_request := Example.request; call_ttl := None;
                    call_env := Example.env 20 |} ] in
  let w' := (serve Example.redis_settings calls (Example.redis_process [])).1 in
  is_Some (Redis.db (redis w') !! generate_cache_key Example.request)
  /\ hits (cache_stats w') = 1
  /\ redis_entries_unmarked w'.
Proof.
  intros calls w'. split; [vm_compute; by eexists|]. split; [by vm_compute|].
  apply (X12_redis_entries_never_marked Example.redis_settings calls
           (Example.redis_process []) (RedisCacheBackend.init "redis://localhost:6379")
           eq_refl).
  intros key e He. simpl in He. by rewrite lookup_empty in He.
Defined.

(** ** The cache key: its format, and what it covers that the origin never sees *)

Lemma hex_digit_in n : Json.hex_digit n ∈ list_ascii_of_string "0123456789abcdef".
Proof.
  unfold Json.hex_digit.
  destruct (Nat.lt_ge_cases n (length (list_ascii_of_string "0123456789abcdef"))) as [Hlt|Hge].
  - apply list_elem_of_In, nth_In, Hlt.
  - rewrite nth_overflow by exact Hge. apply list_elem_of_In. simpl. auto.
Qed.

Lemma hexdigest_bytes (bs : list Z) :
  String.length (String.concat EmptyString (map MD5.hex_byte bs)) = (2 * length bs)%nat
  /\ Forall (fun c => c ∈ list_ascii_of_string "0123456789abcdef")
       (list_ascii_of_string (String.concat EmptyString (map MD5.hex_byte bs))).
Proof.
  induction bs as [|b bs [IHl IHc]]; [by split|].
  assert (String.concat EmptyString (map MD5.hex_byte (b :: bs))
          = String (Json.hex_digit (Z.to_nat (b / 16)))
              (String (Json.hex_digit (Z.to_nat (b mod 16)))
                 (String.concat EmptyString (map MD5.hex_byte bs)))) as ->.
  { cbn [map String.concat]. destruct (map MD5.hex_byte bs); [done|].
    unfold MD5.hex_byte. by rewrite !append_String, !append_Empty. }
  split.
  - cbn [String.length length]. rewrite IHl. lia.
  - cbn [list_ascii_of_string]. repeat (constructor; [apply hex_digit_in|]). exact IHc.
Qed.

Lemma length_le_bytes n x : length (MD5.le_bytes n x) = n.
Proof. unfold MD5.le_bytes. by rewrite length_map, length_seq. Qed.

Lemma generate_cache_key_length (request : ProxyRequest.t) :
  String.length (generate_cache_key request) = 32%nat.
Proof.
  unfold generate_cache_key, MD5.hexdigest.
  destruct (hexdigest_bytes (MD5.digest (MD5.encode (key_string request)))) as [Hl _].
  rewrite Hl. unfold MD5.digest. by rewrite !length_app, !length_le_bytes.
Qed.

(** X13: every cache key is a string of 32 characters, each one of
    [0123456789abcdef], whatever the request. *)
Theorem X13_key_is_32_lowercase_hex_digits (request : ProxyRequest.t) :
  String.length (generate_cache_key request) = 32%nat
  /\ Forall (fun c => c ∈ list_ascii_of_string "0123456789abcdef")
       (list_ascii_of_string (generate_cache_key request)).
Proof.
  split; [apply generate_cache_key_length|].
  unfold generate_cache_key, MD5.hexdigest.
  apply (hexdigest_bytes (MD5.digest (MD5.encode (key_string request)))).
Qed.

Lemma length_append (s t : string) :
  String.length (s ++ t)%string = (String.length s + String.length t)%nat.
Proof. induction s as [|c s IH]; [done|]. rewrite append_String. simpl. by rewrite IH. Qed.

Lemma append_cancel_r (a b t : string) : (a ++ t)%string = (b ++ t)%string -> a = b.
Proof.
  revert b. induction a as [|c a IH]; intros [|d b] H; rewrite ?append_String, ?append_Empty in H.
  - done.
  - exfalso. apply (f_equal String.length) in H. simpl in H.
    rewrite length_append in H. lia.
  - exfalso. apply (f_equal String.length) in H. simpl in H.
    rewrite length_append in H. lia.
  - injection H as -> H. f_equal. by apply IH.
Qed.

(** The text that is hashed, field by field. *)
Lemma key_string_fields r :
  key_string r
  = (("{" ++ Json.encode_str "body" ++ ": ") ++ Json.dumps (ProxyRequest.body r)
     ++ (", " ++ Json.encode_str "method" ++ ": ") ++ Json.encode_str (ProxyRequest.method r)
     ++ (", " ++ Json.encode_str "params" ++ ": ")
     ++ Json.dumps (JDict (params_or_empty (ProxyRequest.params r)))
     ++ (", " ++ Json.encode_str "url" ++ ": ") ++ Json.encode_str (ProxyRequest.url r)
     ++ "}")%string.
Proof.
  unfold key_string, key_data.
  set (p := JDict (params_or_empty (ProxyRequest.params r))).
  cbn [Json.dumps map Json.on_value].
  change (Json.sort_items _) with
    [("body", Json.dumps (ProxyRequest.body r));
     ("method", Json.encode_str (ProxyRequest.method r));
     ("params", Json.dumps p);
     ("url", Json.encode_str (ProxyRequest.url r))].
  cbn [map String.concat Json.render_item fst snd].
  rewrite !append_assoc. reflexivity.
Qed.

(** X14: a body that the origin never sees still splits the cache.  When the
    method is not one of POST, PUT, PATCH (in capitals), or when both bodies
    are falsy, two requests that differ only in their body are sent to the
    origin with the same arguments; yet whenever the two bodies are rendered
    differently, the texts hashed into their keys differ. *)
Theorem X14_unsent_body_still_changes_the_key_text (r : ProxyRequest.t) (b1 b2 : json) :
  ProxyRequest.method r ∉ ["POST"; "PUT"; "PATCH"] \/ (truthy b1 = false /\ truthy b2 = false) ->
  request_kwargs (with_body b1 r) = request_kwargs (with_body b2 r)
  /\ ClientArgs.body (request_kwargs (with_body b1 r)) = NoPayload
  /\ (Json.dumps b1 <> Json.dumps b2 ->
      key_string (with_body b1 r) <> key_string (with_body b2 r)).
Proof.
  intros Hcase.
  assert (forall b, b = b1 \/ b = b2 ->
            (truthy b && bool_decide (ProxyRequest.method r ∈ ["POST"; "PUT"; "PATCH"]))
            = false) as Hoff.
  { intros b Hb. destruct Hcase as [Hm | [H1 H2]].
    - rewrite (bool_decide_eq_false_2 _ Hm). apply andb_false_r.
    - destruct Hb as [-> | ->]; by rewrite ?H1, ?H2. }
  split_and!.
  - unfold request_kwargs, with_body. cbn [ProxyRequest.body ProxyRequest.method
      ProxyRequest.url ProxyRequest.headers ProxyRequest.params].
    by rewrite !Hoff by auto.
  - unfold request_kwargs, with_body. cbn [ProxyRequest.body ProxyRequest.method
      ClientArgs.body]. by rewrite Hoff by auto.
  - intros Hne Heq. apply Hne. rewrite !key_string_fields in Heq.
    apply append_cancel_l in Heq. by apply append_cancel_r in Heq.
Qed.

(** X14 on a GET request: a body is dropped from what is sent, and changes
    the text that is hashed. *)
Lemma X14_unsent_body_still_changes_the_key_text_witness :
  request_kwargs (with_body JNull Example.request)
  = request_kwargs (with_body (JDict [("a", JInt 1)]) Example.request)
  /\ key_string (with_body JNull Example.request)
     <> key_string (with_body (JDict [("a", JInt 1)]) Example.request).
Proof.
  destruct (X14_unsent_body_still_changes_the_key_text Example.request JNull
              (JDict [("a", JInt 1)])) as (Hk & _ & Hne).
  - left. set_solver.
  - split; [exact Hk|]. apply Hne. by vm_compute.
Defined.

(** ** The proxy middleware *)

Lemma substring_all (t : string) (m : nat) :
  (String.length t <= m)%nat -> String.substring 0 m t = t.
Proof.
  revert m. induction t as [|c t IH]; intros [|m] Hm; simpl in *; try done; try lia.
  f_equal. apply IH. lia.
Qed.

Lemma substring_after (p t : string) :
  String.substring (String.length p) (String.length (p ++ t)%string) (p ++ t)%string = t.
Proof.
  rewrite length_append.
  generalize (String.length p + String.length t)%nat (Nat.le_add_l (String.length t)
                                                       (String.length p)).
  induction p as [|c p IH]; intros m Hm.
  - rewrite append_Empty. by apply substring_all.
  - rewrite append_String. simpl. by apply IH.
Qed.

Lemma startswith_append (p t : string) : PyStr.startswith p (p ++ t)%string = true.
Proof. apply startswith_spec. by exists t. Qed.

Lemma str_split_once_prefix (sep t : string) :
  str_split_once sep (sep ++ t)%string = [EmptyString; t].
Proof.
  assert (forall s, PyStr.startswith sep s = true ->
                    str_split_once sep s
                    = [EmptyString; String.substring (String.length sep) (String.length s) s])
    as Hstep.
  { intros s Hs. destruct s; simpl; by rewrite Hs. }
  rewrite Hstep by apply startswith_append. by rewrite substring_after.
Qed.

Section middleware_properties.
Context (decode : list Byte.byte -> option string) (loads : string -> option json).

Lemma build_proxy_request_prefix req target :
  Http.path req = ("/http/" ++ target)%string ->
  build_proxy_request decode loads req
  = match read_body decode loads req with
    | Some b =>
        inr {| ProxyRequest.url :=
                 match Http.query req with
                 | EmptyString => ("https://" ++ target)%string
                 | String _ _ => (("https://" ++ target) ++ "?" ++ Http.query req)%string
                 end;
               ProxyRequest.method := Http.method req;
               ProxyRequest.headers := Some (forwarded_headers (Http.headers req));
               ProxyRequest.body := b;
               ProxyRequest.params := None |}
    | None => inl (Http.HTTPException 500)
    end.
Proof.
  intros Hp. unfold build_proxy_request. by rewrite Hp, str_split_once_prefix.
Qed.

(** X15: the middleware handles exactly the paths that start with [/http/].
    Any other path is handed on untouched.  For a path [/http/] followed by a
    target, the proxied URL is [https://] followed by the target, then [?] and
    the query string when there is one; the method is kept and no params are
    set; and the middleware ends with an answer or with the status 500: the
    status 400 of the "invalid proxy path" branch cannot arise. *)
Theorem X15_middleware_handles_http_prefix settings req env w :
  (PyStr.startswith "/http/" (Http.path req) = false ->
   direct_proxy_middleware decode loads settings req env w = (w, Http.CallNext))
  /\ (forall target,
        Http.path req = ("/http/" ++ target)%string ->
        ((exists r, (direct_proxy_middleware decode loads settings req env w).2 = Http.Return r)
         \/ (direct_proxy_middleware decode loads settings req env w).2
            = Http.HTTPException 500)
        /\ forall p,
             build_proxy_request decode loads req = inr p ->
             ProxyRequest.url p
             = match Http.query req with
               | EmptyString => ("https://" ++ target)%string
               | String _ _ => (("https://" ++ target) ++ "?" ++ Http.query req)%string
               end
             /\ ProxyRequest.method p = Http.method req
             /\ ProxyRequest.params p = None).
Proof.
  split.
  - intros Hp. unfold direct_proxy_middleware. by rewrite Hp.
  - intros target Hp. split.
    + unfold direct_proxy_middleware.
      rewrite Hp, startswith_append. cbn [negb].
      rewrite (build_proxy_request_prefix req target Hp).
      destruct (read_body decode loads req) as [b|]; [|by right].
      destruct (process_proxy_request _ _ _ _ _) as [w' [e|l]]; [by right|].
      left. by eexists.
    + intros p. rewrite (build_proxy_request_prefix req target Hp).
      destruct (read_body decode loads req) as [b|]; [|done].
      by intros [= <-].
Qed.
End middleware_properties.

(** X15 on the path [/http/example.com/a] with the query [x=1]. *)
Lemma X15_middleware_handles_http_prefix_witness :
  let req := {| Http.path := "/http/example.com/a"; Http.query := "x=1";
                Http.method := "GET"; Http.headers := [("host", "proxy.local")];
                Http.body := [] |} in
  exists p,
    build_proxy_request (fun _ => None) (fun _ => None) req = inr p
    /\ ProxyRequest.url p = "https://example.com/a?x=1".
Proof.
  intros req. eexists. split; [reflexivity|].
  apply (proj2 (proj2 (X15_middleware_handles_http_prefix (fun _ => None) (fun _ => None)
                         Example.memory_settings req (Example.env 10) Example.memory_process)
                  "example.com/a" eq_refl) _ eq_refl).
Defined.

Lemma lower_accept_encoding_dropped : PyStr.lower "accept-encoding" ∈ dropped_request_headers.
Proof. vm_compute. set_solver. Qed.

Lemma forwarded_loop_lookup (hs : list (string * string)) (name : string) :
  foldl (fun (acc : gmap string string) kv =>
           if bool_decide (PyStr.lower kv.1 ∈ dropped_request_headers)
           then acc else <[kv.1 := kv.2]> acc) ∅ hs !! name
  = if bool_decide (PyStr.lower name ∈ dropped_request_headers) then None
    else snd <$> last (filter (fun kv => kv.1 = name) hs).
Proof.
  induction hs as [|kv hs IH] using rev_ind.
  - simpl. rewrite lookup_empty. by destruct (bool_decide _).
  - rewrite foldl_app, filter_app. cbn [foldl].
    rewrite filter_cons, filter_nil.
    destruct (decide (kv.1 = name)) as [Heq|Hne].
    + rewrite last_snoc. subst name.
      destruct (bool_decide (PyStr.lower kv.1 ∈ dropped_request_headers)) eqn:Hd.
      * rewrite IH. by rewrite ?Hd.
      * by rewrite lookup_insert_eq.
    + rewrite app_nil_r.
      destruct (bool_decide (PyStr.lower kv.1 ∈ dropped_request_headers)) eqn:Hd;
        [exact IH | by rewrite lookup_insert_ne].
Qed.

(** X16: the headers the middleware forwards to the origin.  They always ask
    for an uncompressed body ([accept-encoding: identity]); no [host],
    [content-length], [content-encoding] or other [accept-encoding] header is
    forwarded, however its name is capitalised; every other header is
    forwarded under its own name, with the value of its last occurrence. *)
Theorem X16_forwarded_headers (hs : list (string * string)) (name : string) :
  forwarded_headers hs !! "accept-encoding" = Some "identity"
  /\ (PyStr.lower name ∈ dropped_request_headers -> name <> "accept-encoding" ->
      forwarded_headers hs !! name = None)
  /\ (PyStr.lower name ∉ dropped_request_headers ->
      forwarded_headers hs !! name = snd <$> last (filter (fun kv => kv.1 = name) hs)).
Proof.
  unfold forwarded_headers. split_and!.
  - by rewrite lookup_insert_eq.
  - intros Hd Hne. rewrite lookup_insert_ne by done.
    rewrite forwarded_loop_lookup. by rewrite (bool_decide_eq_true_2 _ Hd).
  - intros Hd.
    assert (name <> "accept-encoding") as Hne.
    { intros ->. apply Hd, lower_accept_encoding_dropped. }
    rewrite lookup_insert_ne by done.
    rewrite forwarded_loop_lookup. by rewrite (bool_decide_eq_false_2 _ Hd).
Qed.

(** X16 on a request with a capitalised [Host], a [Content-Length], an
    [Accept-Encoding] and two [x-trace] headers. *)
Lemma X16_forwarded_headers_witness :
  let hs := [("Host", "proxy.local"); ("x-trace", "1"); ("Content-Length", "12");
             ("Accept-Encoding", "gzip"); ("x-trace", "2")] in
  forwarded_headers hs !! "Host" = None
  /\ forwarded_headers hs !! "Accept-Encoding" = None
  /\ forwarded_headers hs !! "x-trace" = Some "2".
Proof.
  intros hs. split_and!.
  - apply (proj1 (proj2 (X16_forwarded_headers hs "Host"))); [vm_compute; set_solver | done].
  - apply (proj1 (proj2 (X16_forwarded_headers hs "Accept-Encoding")));
      [vm_compute; set_solver | done].
  - rewrite (proj2 (proj2 (X16_forwarded_headers hs "x-trace"))); [done|].
    vm_compute. set_solver.
Defined.

Section middleware_outcomes.
Context (decode : list Byte.byte -> option string) (loads : string -> option json).

(** X17: what a handled request ends with.  When [process_proxy_request]
    raises, whatever the exception (a failed fetch, a failed cache read or
    write), the middleware raises the status 500 and keeps the state the
    request reached, counters included.  Otherwise it returns the result of
    [Response(...)] called with the content and the status of the response,
    and with a [headers] argument that holds its headers less
    [content-encoding], [transfer-encoding] and [content-length], however
    capitalised (what the framework adds to that argument when it builds the
    answer is outside this statement).  The request is always processed
    without TTL override. *)
Theorem X17_middleware_outcome settings req env w target p :
  Http.path req = ("/http/" ++ target)%string ->
  build_proxy_request decode loads req = inr p ->
  (forall w' e,
      process_proxy_request settings p None env w = (w', inl e) ->
      direct_proxy_middleware decode loads settings req env w
      = (w', Http.HTTPException 500))
  /\ (forall w' l,
         process_proxy_request settings p None env w = (w', inr l) ->
         exists r,
           direct_proxy_middleware decode loads settings req env w = (w', Http.Return r)
           /\ Http.content r = ProxyResponse.content (Heap.deref l (heap w'))
           /\ Http.status_code r = ProxyResponse.status_code (Heap.deref l (heap w'))
           /\ forall name,
                Http.headers_argument r !! name
                = if bool_decide (PyStr.lower name ∈ dropped_response_headers) then None
                  else ProxyResponse.headers (Heap.deref l (heap w')) !! name).
Proof.
  intros Hp Hbuild.
  assert (direct_proxy_middleware decode loads settings req env w
                    = match process_proxy_request settings p None env w with
                      | (w', inl _) => (w', Http.HTTPException 500)
                      | (w', inr response_data) =>
                          (w', Http.Return
                                 {| Http.content :=
                                      ProxyResponse.content (Heap.deref response_data (heap w'));
                                    Http.status_code :=
                                      ProxyResponse.status_code
                                        (Heap.deref response_data (heap w'));
                                    Http.headers_argument :=
                                      returned_headers
                                        (ProxyResponse.headers
                                           (Heap.deref response_data (heap w'))) |})
                      end) as ->.
  { unfold direct_proxy_middleware.
    by rewrite Hp, startswith_append, Hbuild. }
  split.
  - intros w' e Hrun. by rewrite Hrun.
  - intros w' l Hrun. rewrite Hrun. eexists. split; [reflexivity|].
    cbn [Http.content Http.status_code Http.headers_argument]. split_and!; try done.
    intros name. unfold returned_headers.
    destruct (ProxyResponse.headers (Heap.deref l (heap w')) !! name) as [v|] eqn:Hv.
    + case_bool_decide as Hd.
      * apply map_lookup_filter_None. right. intros v' _. simpl. tauto.
      * apply map_lookup_filter_Some. by split.
    + case_bool_decide; apply map_lookup_filter_None; by left.
Qed.
End middleware_outcomes.

(** X17 on a Redis-backed process whose cache write fails: the middleware
    answers with the status 500, and the miss stays counted. *)
Lemma X17_middleware_outcome_witness :
  let req := {| Http.path := "/http/example.com/a"; Http.query := "";
                Http.method := "GET"; Http.headers := []; Http.body := [] |} in
  exists w',
    direct_proxy_middleware (fun _ => None) (fun _ => None) Example.redis_settings req
      (Example.env 10) (Example.redis_process [false; true])
    = (w', Http.HTTPException 500)
    /\ misses (cache_stats w') = 1.
Proof.
  intros req.
  set (p := {| ProxyRequest.url := "https://example.com/a"; ProxyRequest.method := "GET";
               ProxyRequest.headers := Some (forwarded_headers []);
               ProxyRequest.body := JNull; ProxyRequest.params := None |}).
  set (out := process_proxy_request Example.redis_settings p None (Example.env 10)
                (Example.redis_process [false; true])).
  assert (out = (out.1, inl StoreUnavailable)) as Hout.
  { rewrite (surjective_pairing out) at 1. f_equal. }
  exists out.1. split; [|by vm_compute].
  exact (proj1 (X17_middleware_outcome (fun _ => None) (fun _ => None)
                  Example.redis_settings req (Example.env 10)
                  (Example.redis_process [false; true]) "example.com/a" p
                  eq_refl eq_refl) out.1 StoreUnavailable Hout).
Defined.

Section middleware_sharing.
Context (decode : list Byte.byte -> option string) (loads : string -> option json).

Lemma read_body_other_method req :
  Http.method req ∉ ["POST"; "PUT"; "PATCH"] -> read_body decode loads req = Some JNull.
Proof. intros Hm. unfold read_body. by rewrite (bool_decide_eq_false_2 _ Hm). Qed.

(** X18: the middleware shares responses between clients.  On a memory
    backend with room, a request whose method is not POST, PUT or PATCH and
    that the origin answers with a cacheable response leaves an entry for its
    key.  From then on, in any state whose store still holds that entry, a
    request for the same path and query with the same method, whatever its
    headers (credentials included) and its body, looked up no later than the
    expiry, gets the result of the same [Response(...)] call, from the cache:
    its own environment is not consulted, it is counted as a hit, and the
    entry is still held afterwards. *)
Theorem X18_middleware_answers_other_clients_from_cache
    settings req req' env w m target status content headers :
  Http.path req = ("/http/" ++ target)%string ->
  Http.path req' = Http.path req ->
  Http.query req' = Http.query req ->
  Http.method req' = Http.method req ->
  Http.method req ∉ ["POST"; "PUT"; "PATCH"] ->
  cache_manager w = MemoryBackend m ->
  1 <= MemoryCacheBackend.max_size m ->
  (forall p, build_proxy_request decode loads req = inr p ->
             (MemoryCacheBackend.get (generate_cache_key p) (now_get env) m).1 = None) ->
  origin env = inr (status, content, headers) ->
  is_cacheable_response status headers = true ->
  let expiry := (now_set env + inject_Z (cache_ttl settings))%Q in
  exists p w1 r l,
    build_proxy_request decode loads req = inr p
    /\ direct_proxy_middleware decode loads settings req env w = (w1, Http.Return r)
    /\ Http.content r = content
    /\ Http.status_code r = status
    /\ Http.headers_argument r = returned_headers headers
    /\ cache_stats w1 = count_request (cache_stats w) Miss
    /\ holds_entry w1 (generate_cache_key p) l expiry status content headers
    /\ forall w' settings' env',
         holds_entry w' (generate_cache_key p) l expiry status content headers ->
         (now_get env' <= expiry)%Q ->
         exists w2,
           direct_proxy_middleware decode loads settings' req' env' w' = (w2, Http.Return r)
           /\ cache_stats w2 = count_request (cache_stats w') Hit
           /\ holds_entry w2 (generate_cache_key p) l expiry status content headers.
Proof.
  intros Hp Hp' Hq' Hm' Hmethod Hmem Hmax Hmiss Horigin Hcacheable expiry.
  assert (Http.path req' = ("/http/" ++ target)%string) as Hp2 by by rewrite Hp'.
  pose proof (build_proxy_request_prefix decode loads req target Hp) as Hb.
  pose proof (build_proxy_request_prefix decode loads req' target Hp2) as Hb'.
  rewrite read_body_other_method in Hb by done.
  rewrite read_body_other_method in Hb' by by rewrite Hm'.
  rewrite Hq', Hm' in Hb'.
  match type of Hb with _ = inr ?x => set (p := x) in * end.
  match type of Hb' with _ = inr ?x => set (p' := x) in * end.
  assert (generate_cache_key p' = generate_cache_key p) as Hkey.
  { unfold generate_cache_key. f_equal. }
  destruct (cacheable_miss_stores settings p None env w m status content headers
              Hmem Hmax (Hmiss p Hb) Horigin Hcacheable)
    as (w1 & m1 & Hrun1 & Hm1 & Hk1 & Hheap1 & Hs1).
  set (resp0 := {| ProxyResponse.status_code := status; ProxyResponse.content := content;
                   ProxyResponse.headers := headers; ProxyResponse.from_cache := false;
                   ProxyResponse.cache_key := Some (generate_cache_key p) |}) in *.
  exists p, w1,
    {| Http.content := content; Http.status_code := status;
       Http.headers_argument := returned_headers headers |}, (length (heap w)).
  refine (conj Hb (conj _ (conj eq_refl (conj eq_refl (conj eq_refl (conj Hs1 (conj _ _))))))).
  - unfold direct_proxy_middleware.
    rewrite Hp, startswith_append, Hb. cbn [negb]. rewrite Hrun1.
    unfold Heap.deref. rewrite Hheap1.
    by rewrite (list_lookup_total_middle (heap w) [] resp0 (length (heap w)) eq_refl).
  - exists m1, resp0. split; [exact Hm1|]. split; [exact Hk1|].
    split; [rewrite Hheap1; by apply list_lookup_middle|].
    exact (conj eq_refl (conj eq_refl eq_refl)).
  - intros w' settings' env' Hheld Hfresh.
    destruct (hit_on_held_entry settings' p' None env' w' (generate_cache_key p)
                (length (heap w)) expiry status content headers Hheld Hkey Hfresh)
      as (w2 & Hrun2 & Hl2 & Hs2 & Hheld2).
    exists w2. refine (conj _ (conj Hs2 Hheld2)).
    unfold direct_proxy_middleware.
    rewrite Hp2, startswith_append, Hb'. cbn [negb]. rewrite Hrun2.
    unfold Heap.deref. by rewrite (list_lookup_total_correct _ _ _ Hl2).
Qed.
End middleware_sharing.

(** X18 on a fresh process: the answer fetched for an anonymous client is
    given, ten seconds later, to a client with an [authorization] header while
    the origin is unreachable. *)
Lemma X18_middleware_answers_other_clients_from_cache_witness :
  let req := {| Http.path := "/http/example.com/a"; Http.query := "";
                Http.method := "GET"; Http.headers := []; Http.body := [] |} in
  let req' := {| Http.path := "/http/example.com/a"; Http.query := "";
                 Http.method := "GET";
                 Http.headers := [("authorization", "Bearer other")]; Http.body := [] |} in
  let env' := {| now_get := 20; origin := inl FetchFailure; now_set := 21 |} in
  exists w1 w2 r,
    direct_proxy_middleware (fun _ => None) (fun _ => None) Example.memory_settings req
      (Example.env 10) Example.memory_process = (w1, Http.Return r)
    /\ direct_proxy_middleware (fun _ => None) (fun _ => None) Example.memory_settings req'
         env' w1 = (w2, Http.Return r)
    /\ Http.status_code r = 200.
Proof.
  intros req req' env'.
  assert (1 <= MemoryCacheBackend.max_size (MemoryCacheBackend.init (V:=loc) 1000 300))
    as Hmax by (simpl; lia).
  assert (Http.method req ∉ ["POST"; "PUT"; "PATCH"]) as Hmethod by set_solver.
  assert (forall p, build_proxy_request (fun _ => None) (fun _ => None) req = inr p ->
                    (MemoryCacheBackend.get (generate_cache_key p)
                       (now_get (Example.env 10))
                       (MemoryCacheBackend.init (V:=loc) 1000 300)).1 = None)
    as Hmiss by (by intros p _).
  assert (now_get env' <= now_set (Example.env 10)
                          + inject_Z (cache_ttl Example.memory_settings))%Q
    as Hfresh by (by vm_compute).
  destruct (X18_middleware_answers_other_clients_from_cache (fun _ => None) (fun _ => None)
              Example.memory_settings req req' (Example.env 10) Example.memory_process
              (MemoryCacheBackend.init 1000 300) "example.com/a" 200 [] ∅
              eq_refl eq_refl eq_refl eq_refl Hmethod eq_refl Hmax Hmiss eq_refl eq_refl)
    as (p & w1 & r & l & _ & H1 & _ & Hst & _ & _ & Hheld & Hlater).
  destruct (Hlater w1 Example.memory_settings env' Hheld Hfresh) as (w2 & H2 & _).
  exists w1, w2, r. split; [exact H1|]. split; [exact H2 | exact Hst].
Defined.

(** ** The administration endpoints *)

Lemma get_cache_info_absent key now w m :
  cache_manager w = MemoryBackend m ->
  OrderedDict.lookup key (MemoryCacheBackend._cache m) = None ->
  Admin.get_cache_info key now w = (with_manager (MemoryBackend m) w, inr Admin.NotFound).
Proof.
  intros Hm Hk. unfold Admin.get_cache_info, bind, ret.
  rewrite (Manager_get_memory _ _ _ m) by done.
  unfold MemoryCacheBackend.get. by rewrite Hk.
Qed.

(** X19: deleting an entry through the endpoint.  On a memory backend
    [delete_cache_item] never raises, whether the key is present or not, and
    changes neither the counters nor the heap; afterwards [get_cache_info] for
    that key answers 404 at any time, and the next request that derives this
    key is a miss. *)
Theorem X19_deleted_entry_is_not_found key w m :
  cache_manager w = MemoryBackend m ->
  exists w1,
    Admin.delete_cache_item key w = (w1, inr tt)
    /\ cache_stats w1 = cache_stats w
    /\ heap w1 = heap w
    /\ (forall now, (Admin.get_cache_info key now w1).2 = inr Admin.NotFound)
    /\ (forall settings request ttl env,
          generate_cache_key request = key ->
          cache_stats (process_proxy_request settings request ttl env w1).1
          = count_request (cache_stats w1) Miss).
Proof.
  intros Hm. unfold Admin.delete_cache_item, Manager.delete. rewrite Hm.
  set (m1 := MemoryCacheBackend.delete key m).
  assert (OrderedDict.lookup key (MemoryCacheBackend._cache m1) = None) as Habs.
  { subst m1. rewrite delete_cache. apply lookup_delitem. }
  eexists. split; [reflexivity|]. split; [done|]. split; [done|]. split.
  - intros now. by rewrite (get_cache_info_absent key now _ m1).
  - intros settings request ttl env Hkey.
    match goal with |- context [process_proxy_request _ _ _ _ ?x] => set (w1 := x) end.
    assert (Manager.get (generate_cache_key request) (now_get env)
              (with_stats incr_total w1)
            = (with_manager (MemoryBackend m1) (with_stats incr_total w1), inr None)) as Hget.
    { rewrite (Manager_get_memory _ _ _ m1) by done. rewrite Hkey.
      unfold MemoryCacheBackend.get. rewrite Habs. by destruct m1. }
    destruct (origin env) as [e|[[status content] headers]] eqn:Ho.
    + by rewrite (process_proxy_request_fetch_failure _ _ _ _ _ _ _ Hget Ho).
    + destruct (is_cacheable_response status headers) eqn:Hc.
      * rewrite (process_proxy_request_miss _ _ _ _ _ _ _ _ _ Hget Ho Hc).
        unfold fetched.
        match goal with
        | |- context [Manager.set ?k ?l ?t ?n ?w'] =>
            pose proof (Manager_set_stats k l t n w') as Hs;
            destruct (Manager.set k l t n w') as [w3 [e|[]]]
        end; cbn [fst] in *; by rewrite Hs.
      * by rewrite (process_proxy_request_not_cacheable _ _ _ _ _ _ _ _ _ Hget Ho Hc).
Qed.

(** X19 after one cached response: the entry is deleted and the same request
    is a miss again. *)
Lemma X19_deleted_entry_is_not_found_witness :
  let w := (process_proxy_request Example.memory_settings Example.request None
              (Example.env 10) Example.memory_process).1 in
  let key := generate_cache_key Example.request in
  (Admin.get_cache_info key 12 w).2 = inr (Admin.Found key 200 false)
  /\ exists w1,
       Admin.delete_cache_item key w = (w1, inr tt)
       /\ (Admin.get_cache_info key 12 w1).2 = inr Admin.NotFound.
Proof.
  intros w key. split; [by vm_compute|].
  destruct (X19_deleted_entry_is_not_found key w
              (MemoryCacheBackend.with_cache [(key, (0%nat, 311%Q))]
                 (MemoryCacheBackend.init 1000 300)))
    as (w1 & Hdel & _ & _ & Hinfo & _); [by vm_compute|].
  exists w1. split; [exact Hdel | apply Hinfo].
Defined.

(** X20: [clear_cache].  With the memory backend it empties the store, so
    that [get_cache_info] answers 404 for every key, and leaves the counters
    of [get_stats] and the heap as they were.  With any other backend name it
    changes nothing: the entries held by Redis stay.  It cannot raise on a
    process whose cache manager was built from the same settings. *)
Theorem X20_clear_cache_empties_memory_only settings w :
  (forall m,
      cache_backend settings = "memory" ->
      cache_manager w = MemoryBackend m ->
      exists w',
        Admin.clear_cache settings w = Some w'
        /\ (forall key now, (Admin.get_cache_info key now w').2 = inr Admin.NotFound)
        /\ cache_stats w' = cache_stats w
        /\ heap w' = heap w)
  /\ (cache_backend settings <> "memory" -> Admin.clear_cache settings w = Some w)
  /\ (Manager.init settings = inr (cache_manager w) ->
      is_Some (Admin.clear_cache settings w)).
Proof.
  split_and!.
  - intros m Hs Hm. unfold Admin.clear_cache. rewrite decide_True by done. rewrite Hm.
    eexists. split; [reflexivity|]. split; [|done].
    intros key now.
    by rewrite (get_cache_info_absent key now _ (MemoryCacheBackend.with_cache [] m)).
  - intros Hs. unfold Admin.clear_cache. by rewrite decide_False.
  - unfold Manager.init, Admin.clear_cache.
    destruct (decide (cache_backend settings = "memory")) as [Hs|Hs].
    + intros [= <-]. by eexists.
    + intros _. by eexists.
Qed.

(** X20 after one cached response, on the memory backend and on Redis. *)
Lemma X20_clear_cache_empties_memory_only_witness :
  let key := generate_cache_key Example.request in
  let w := (process_proxy_request Example.memory_settings Example.request None
              (Example.env 10) Example.memory_process).1 in
  let wr := (process_proxy_request Example.redis_settings Example.request None
               (Example.env 10) (Example.redis_process [])).1 in
  (exists w', Admin.clear_cache Example.memory_settings w = Some w'
              /\ (Admin.get_cache_info key 12 w').2 = inr Admin.NotFound
              /\ misses (cache_stats w') = 1)
  /\ Admin.clear_cache Example.redis_settings wr = Some wr
  /\ (Admin.get_cache_info key 12 wr).2 = inr (Admin.Found key 200 false).
Proof.
  intros key w wr.
  pose proof (X20_clear_cache_empties_memory_only Example.memory_settings w) as (Hmem & _).
  pose proof (X20_clear_cache_empties_memory_only Example.redis_settings wr) as (_ & Hred & _).
  split_and!.
  - destruct (Hmem (MemoryCacheBackend.with_cache [(key, (0%nat, 311%Q))]
                      (MemoryCacheBackend.init 1000 300)))
      as (w' & Hclear & Hinfo & Hs & _); [done | by vm_compute |].
    exists w'. split; [exact Hclear|]. split; [apply Hinfo|]. rewrite Hs. by vm_compute.
  - by apply Hred.
  - by vm_compute.
Defined.

(** ** Routing *)

Lemma dispatch_never_clears method segs :
  Router.dispatch Router.routes method segs <> Some Router.ClearCacheOp.
Proof.
  unfold Router.routes.
  destruct segs as [|s0 [|s1 [|s2 [|s3 [|s4 segs]]]]];
    cbn [Router.dispatch Router.match_template Router.op_method Router.op_template
         Router.op_endpoint];
    repeat (case_decide; cbn [Router.dispatch Router.match_template];
            try discriminate; try congruence).
Qed.

(** X21: the operation [clear_cache] is never selected.  Its path
    [/cache/clear] also matches the template [/cache/{cache_key}] of
    [delete_cache_item], which is declared first, so [DELETE /cache/clear]
    runs [delete_cache_item] with the key [clear]; and since every generated
    key has 32 characters, on a memory backend that call removes no entry
    that a proxy request can have stored. *)
Theorem X21_clear_route_is_shadowed :
  (forall method path, Router.route method path <> Some Router.ClearCacheOp)
  /\ Router.route "DELETE" "/cache/clear" = Some (Router.DeleteCacheItemOp "clear")
  /\ (forall w m request,
        cache_manager w = MemoryBackend m ->
        exists w' m',
          Admin.delete_cache_item "clear" w = (w', inr tt)
          /\ cache_manager w' = MemoryBackend m'
          /\ OrderedDict.lookup (generate_cache_key request) (MemoryCacheBackend._cache m')
             = OrderedDict.lookup (generate_cache_key request) (MemoryCacheBackend._cache m)).
Proof.
  split_and!.
  - intros method path. apply dispatch_never_clears.
  - by vm_compute.
  - intros w m request Hm.
    unfold Admin.delete_cache_item, Manager.delete. rewrite Hm.
    eexists _, _. split; [reflexivity|]. split; [reflexivity|].
    rewrite delete_cache. apply lookup_delitem_ne.
    pose proof (generate_cache_key_length request) as Hlen.
    generalize dependent (generate_cache_key request). intros key Hlen ->.
    vm_compute in Hlen. discriminate.
Qed.

(** ** A hit on the Redis backend *)

(** X22: a hit served from Redis.  When the server answers the read and holds
    an unexpired entry for the request's key, [process_proxy_request] returns
    a new object: the stored value with [from_cache] set and [cache_key]
    assigned.  No object that existed before is changed, the server's table is
    as it was, the origin is not contacted (its outcome in [env] plays no
    part), and the request is counted as a hit. *)
Theorem X22_redis_hit_returns_a_new_copy settings request ttl env w b r expiry :
  cache_manager w = RedisBackend b ->
  head (Redis.faults (redis w)) <> Some true ->
  Redis.db (redis w) !! generate_cache_key request = Some (r, expiry) ->
  (now_get env < expiry)%Q ->
  let out := process_proxy_request settings request ttl env w in
  out.2 = inr (length (heap w))
  /\ heap out.1
     = heap w ++ [ProxyResponse.set_cache_key (generate_cache_key request)
                    (ProxyResponse.set_from_cache true r)]
  /\ Redis.db (redis out.1) = Redis.db (redis w)
  /\ cache_stats out.1 = count_request (cache_stats w) Hit.
Proof.
  intros Hb Hf Hk Hlive. unfold process_proxy_request.
  revert Hk. generalize (generate_cache_key request). intros key Hk.
  assert (Redis.live (now_get env) (r, expiry) = true) as Hl.
  { unfold Redis.live, Qgtb. cbn [snd]. apply negb_true_iff.
    destruct (Qle_bool expiry (now_get env)) eqn:Hle; [|done].
    apply Qle_bool_iff in Hle. exfalso. eapply Qlt_not_le; eauto. }
  unfold bind, modify, ret, gets, Manager.get. cbn [with_stats cache_manager redis].
  rewrite Hb. unfold RedisCacheBackend.get, Redis.GET, Redis.command.
  destruct (Redis.faults (redis w)) as [|[] fs] eqn:Hfs; [| by destruct Hf |];
    cbn [Redis.db]; rewrite Hk, Hl; unfold bind, new_object, Heap.alloc, ret;
    cbn -[Heap.setattr]; rewrite !setattr_new; done.
Qed.

(** X22 on the second of two requests served through Redis: the first
    response is object 0, the hit is object 1. *)
Lemma X22_redis_hit_returns_a_new_copy_witness :
  let key := generate_cache_key Example.request in
  let w := (process_proxy_request Example.redis_settings Example.request None
              (Example.env 10) (Example.redis_process [])).1 in
  let out := process_proxy_request Example.redis_settings Example.request None
               (Example.env 20) w in
  out.2 = inr 1%nat
  /\ ProxyResponse.from_cache <$> heap out.1 = [false; true]
  /\ cache_stats out.1 = {| hits := 1; misses := 1; total_requests := 2 |}.
Proof.
  intros key w out.
  destruct (X22_redis_hit_returns_a_new_copy Example.redis_settings Example.request None
              (Example.env 20) w
              (RedisCacheBackend._get_connection
                 (RedisCacheBackend.init "redis://localhost:6379"))
              {| ProxyResponse.status_code := 200; ProxyResponse.content := [];
                 ProxyResponse.headers := ∅; ProxyResponse.from_cache := false;
                 ProxyResponse.cache_key := Some key |}
              311%Q)
    as (Hres & Hheap & _ & Hstats).
  - by vm_compute.
  - by vm_compute.
  - by vm_compute.
  - by vm_compute.
  - fold out in Hres, Hheap, Hstats. split; [exact Hres|]. split.
    + rewrite Hheap. by vm_compute.
    + rewrite Hstats. by vm_compute.
Defined.
